(** * Log-group subscription reconciliation (src/forwarder.ts)

    A shallow embedding of [addCloudWatchForwarderSubscriptions] and of the
    helpers it calls, followed by the properties the specification states
    about them.

    The TypeScript code is asynchronous and effectful: it queries the AWS
    account through [aws.request], mutates the [Resources] object of the
    compiled CloudFormation template in place, collects warnings in a local
    array and may throw.  The embedding threads all of this through one
    state-and-exception monad; an [await] is sequential composition. *)

From Stdlib Require Import Ascii String List Bool Arith Lia Permutation.
Import ListNotations.
Local Open Scope string_scope.
Local Open Scope list_scope.
Set Warnings "-register-all".

(** ** Constants *)

Definition logGroupKey : string := "AWS::Logs::LogGroup".
Definition logGroupSubscriptionKey : string := "AWS::Logs::SubscriptionFilter".
Definition maxAllowableLogGroupSubscriptions : nat := 2.

(** ** JavaScript values

    The resources of a template have the TypeScript type [any].  The code
    inspects them dynamically, so they are embedded as untyped values.
    [JsObject] lists the own properties of a plain object in property order;
    an array is an object keyed by its indices. *)

Inductive JsValue : Type :=
| JsUndefined
| JsNull
| JsBool (b : bool)
| JsString (s : string)
| JsObject (props : list (string * JsValue)).

(** Exceptions that the embedded code can raise. *)
Inductive Exn : Type :=
| DatadogForwarderNotFoundError (message : string)
| TypeError.

Inductive Outcome (A : Type) : Type :=
| Returned (a : A)
| Thrown (e : Exn).
Arguments Returned {A} a.
Arguments Thrown {A} e.

(** ** Objects as ordered property lists

    An object is the list of its properties in the order [Object.entries]
    enumerates them.  [lookup] reads a property, [set] is the assignment
    [o[k] = v]: an existing property keeps its position, a new one is added
    last.  (JavaScript enumerates array-index names first; every name this
    program assigns ends in [Subscription], so a new one does come last.) *)

Fixpoint lookup {V : Type} (k : string) (o : list (string * V)) : option V :=
  match o with
  | [] => None
  | (k', v) :: o' => if String.eqb k k' then Some v else lookup k o'
  end.

Fixpoint set {V : Type} (k : string) (v : V) (o : list (string * V))
  : list (string * V) :=
  match o with
  | [] => [(k, v)]
  | (k', v') :: o' =>
      if String.eqb k k' then (k, v) :: o' else (k', v') :: set k v o'
  end.

(** [v.k]: reading a property of [undefined] or [null] throws; a primitive
    has none of the properties this program reads ([Type], [Properties],
    [LogGroupName]); an absent property reads as [undefined]. *)
Definition get (v : JsValue) (k : string) : Outcome JsValue :=
  match v with
  | JsUndefined | JsNull => Thrown TypeError
  | JsBool _ | JsString _ => Returned JsUndefined
  | JsObject props =>
      match lookup k props with
      | Some x => Returned x
      | None => Returned JsUndefined
      end
  end.

(** ** Data of the program *)

(** One element of [DescribeSubscriptionFiltersResponse.subscriptionFilters].
    [creationTime] is a timestamp the program never reads. *)
Record SubscriptionFilter : Type := {
  creationTime : nat;
  destinationArn : string;
  distribution : string;
  filterName : string;
  filterPattern : string;
  logGroupName : string;
  roleArn : string
}.

(** A forwarder target of type [CloudFormationObjectArn]: the object the
    caller passes, as the list of its own properties.  The interface
    declares two optional string properties, ["Fn::Sub"] and ["arn:aws"];
    the program reads neither and stores the object as it is. *)
Definition CloudFormationObjectArn : Type := list (string * JsValue).

(** [CloudFormationObjectArn | string], the type of [functionArn]. *)
Inductive ForwarderArn : Type :=
| ArnString (s : string)
| ArnObject (o : CloudFormationObjectArn).

(** [typeof functionArn !== "string"]. *)
Definition typeof_not_string (functionArn : ForwarderArn) : bool :=
  match functionArn with
  | ArnString _ => false
  | ArnObject _ => true
  end.

(** The text a template literal inserts for [functionArn]; the program
    builds it for a string target only (line 72). *)
Definition arnToString (functionArn : ForwarderArn) : string :=
  match functionArn with
  | ArnString s => s
  | ArnObject _ => "[object Object]"
  end.

(** [functionArn] as a value: the caller's string or the caller's object
    itself, which is what line 99 stores. *)
Definition arnValue (functionArn : ForwarderArn) : JsValue :=
  match functionArn with
  | ArnString s => JsString s
  | ArnObject o => JsObject o
  end.

(** The requests sent through [aws.request]. *)
Inductive Request : Type :=
| Lambda_getFunction (FunctionName : ForwarderArn)
| CloudWatchLogs_describeSubscriptionFilters (logGroupName : string).

(** The AWS client of the Serverless framework.  The two [request_] fields
    are the live account as seen through [aws.request]: [None] is a rejected
    promise.  [getStackName] is [aws.naming.getStackName()]; [None] is
    [undefined]. *)
Record Aws : Type := {
  request_getFunction : ForwarderArn -> option unit;
  request_describeSubscriptionFilters :
    string -> option (list SubscriptionFilter);
  getStage : string;
  getStackName : option string
}.

(** [Resources] of a compiled template: resource name to resource, in the
    order [Object.entries] enumerates them. *)
Definition Resources : Type := list (string * JsValue).

Record CloudFormationTemplate : Type := {
  template_Resources : option Resources
}.

Record Service : Type := {
  getServiceName : string;
  compiledCloudFormationTemplate : option CloudFormationTemplate
}.

(** [service.provider.compiledCloudFormationTemplate?.Resources] *)
Definition service_Resources (service : Service) : option Resources :=
  match compiledCloudFormationTemplate service with
  | Some t => template_Resources t
  | None => None
  end.

(** The service after the in-place mutation of its [Resources] object. *)
Definition with_Resources (service : Service) (resources : Resources)
  : Service :=
  {| getServiceName := getServiceName service;
     compiledCloudFormationTemplate :=
       match compiledCloudFormationTemplate service with
       | Some _ => Some {| template_Resources := Some resources |}
       | None => None
       end |}.

(** ** The monad

    The state holds what the function can change or cause: the [Resources]
    object, the local [errors] array, and the requests sent so far.  An
    exception leaves the state as it was when it was thrown. *)

Record State : Type := {
  resources : Resources;
  errors : list string;
  requests : list Request
}.

Definition M (A : Type) : Type := State -> Outcome A * State.

Definition ret {A : Type} (a : A) : M A := fun st => (Returned a, st).

Definition bind {A B : Type} (m : M A) (f : A -> M B) : M B :=
  fun st =>
    match m st with
    | (Returned a, st') => f a st'
    | (Thrown e, st') => (Thrown e, st')
    end.

Definition throw {A : Type} (e : Exn) : M A := fun st => (Thrown e, st).

(** Lifts a computation that can only return or throw. *)
Definition lift {A : Type} (o : Outcome A) : M A := fun st => (o, st).

Notation "x <- m ;; k" := (bind m (fun x => k))
  (at level 61, m at next level, right associativity).
Notation "m ;; k" := (bind m (fun _ => k))
  (at level 61, right associativity).

(** The three ways the program changes the state. *)
Definition pushed (message : string) (st : State) : State :=
  {| resources := resources st;
     errors := errors st ++ [message];
     requests := requests st |}.

Definition assigned (name : string) (value : JsValue) (st : State) : State :=
  {| resources := set name value (resources st);
     errors := errors st;
     requests := requests st |}.

Definition sent (r : Request) (st : State) : State :=
  {| resources := resources st;
     errors := errors st;
     requests := requests st ++ [r] |}.

(** [errors.push(message)] *)
Definition errors_push (message : string) : M unit :=
  fun st => (Returned tt, pushed message st).

(** [resources[name] = value] *)
Definition resources_set (name : string) (value : JsValue) : M unit :=
  fun st => (Returned tt, assigned name value st).

(** [await aws.request(...)]: records the request; a rejection is [None]. *)
Definition aws_request {A : Type} (r : Request) (response : option A)
  : M (option A) :=
  fun st => (Returned response, sent r st).

(** [for (const x of xs) body]: stops at the first exception. *)
Fixpoint for_of {A : Type} (xs : list A) (body : A -> M unit) : M unit :=
  match xs with
  | [] => ret tt
  | x :: xs' => body x ;; for_of xs' body
  end.

(** ** The functions of forwarder.ts *)

Definition isLogGroup (value : JsValue) : Outcome bool :=
  match get value "Type" with
  | Returned (JsString t) => Returned (String.eqb t logGroupKey)
  | Returned _ => Returned false
  | Thrown e => Thrown e
  end.

Definition validateForwarderArn (aws : Aws) (functionArn : ForwarderArn)
  : M unit :=
  r <- aws_request (Lambda_getFunction functionArn)
         (request_getFunction aws functionArn) ;;
  match r with
  | Some _ => ret tt
  | None =>
      throw (DatadogForwarderNotFoundError
               ("Could not perform GetFunction on "
                ++ arnToString functionArn ++ ".")%string)
  end.

Definition describeSubscriptionFilters (aws : Aws) (logGroupName : string)
  : M (list SubscriptionFilter) :=
  result <- aws_request
              (CloudWatchLogs_describeSubscriptionFilters logGroupName)
              (request_describeSubscriptionFilters aws logGroupName) ;;
  match result with
  | Some subscriptionFilters => ret subscriptionFilters
  | None => ret []
  end.

(** The loop of [canSubscribeLogGroup] over the filters, with
    [foundDatadogSubscriptionFilter] as the accumulator. *)
Definition scanSubscriptionFilters (expectedSubName : string)
    (subscriptionFilters : list SubscriptionFilter) : bool :=
  fold_left
    (fun foundDatadogSubscriptionFilter subscription =>
       if String.prefix expectedSubName (filterName subscription)
       then true
       else foundDatadogSubscriptionFilter)
    subscriptionFilters false.

Definition canSubscribeLogGroup (aws : Aws) (logGroupName : string)
    (expectedSubName : string) : M bool :=
  subscriptionFilters <- describeSubscriptionFilters aws logGroupName ;;
  let numberOfActiveSubscriptionFilters := length subscriptionFilters in
  let foundDatadogSubscriptionFilter :=
    scanSubscriptionFilters expectedSubName subscriptionFilters in
  if negb foundDatadogSubscriptionFilter
     && Nat.leb maxAllowableLogGroupSubscriptions
                numberOfActiveSubscriptionFilters
  then ret false
  else ret true.

(** A string is truthy when it is not empty. *)
Definition truthy (s : string) : bool := negb (String.eqb s "").

(** Lines 81-86: the name prefix of the filter that a deployment of this
    stack creates for the subscription [scopedSubName]. *)
Definition expectedSubName (service : Service) (aws : Aws)
    (scopedSubName : string) : string :=
  let expectedSubName :=
    (getServiceName service ++ "-" ++ getStage aws ++ "-"
     ++ scopedSubName ++ "-")%string in
  match getStackName aws with
  | Some stackName =>
      if truthy stackName
      then (stackName ++ "-" ++ scopedSubName ++ "-")%string
      else expectedSubName
  | None => expectedSubName
  end.

(** Lines 96-103: the resource written for the log group resource [name]. *)
Definition subscription (name : string) (functionArn : ForwarderArn)
  : JsValue :=
  JsObject
    [("Type", JsString logGroupSubscriptionKey);
     ("Properties",
      JsObject
        [("DestinationArn", arnValue functionArn);
         ("FilterPattern", JsString "");
         ("LogGroupName", JsObject [("Ref", JsString name)])])].

Definition quotaWarning (logGroupName : string) : string :=
  ("Could not subscribe Datadog Forwarder due to too many existing subscription filter(s) for "
   ++ logGroupName ++ ".")%string.

Definition skipValidationWarning : string :=
  "Skipping forwarder ARN validation because forwarder string defined with CloudFormation function.".

Definition noStackMessage : string :=
  "No cloudformation stack available. Skipping subscribing Datadog forwarder.".

(** The body of the loop over [Object.entries(resources)], lines 75-104.
    [ret tt] before the end of the body is [continue]. *)
Definition loopBody (service : Service) (aws : Aws)
    (functionArn : ForwarderArn) (entry : string * JsValue) : M unit :=
  let (name, resource) := entry in
  isLog <- lift (isLogGroup resource) ;;
  if negb isLog then ret tt else
  properties <- lift (get resource "Properties") ;;
  value <- lift (get properties "LogGroupName") ;;
  match value with
  | JsString logGroupName =>
      if negb (String.prefix "/aws/lambda/" logGroupName) then ret tt else
      let scopedSubName := (name ++ "Subscription")%string in
      canSub <- canSubscribeLogGroup aws logGroupName
                  (expectedSubName service aws scopedSubName) ;;
      if negb canSub
      then errors_push (quotaWarning logGroupName)
      else resources_set scopedSubName (subscription name functionArn)
  | _ => throw TypeError
  end.

(** Lines 68-106, run on the [Resources] object held in the state.
    [Object.entries] copies the entries before the loop starts, so the loop
    does not see the resources it adds. *)
Definition reconcile (service : Service) (aws : Aws)
    (functionArn : ForwarderArn) : M (list string) :=
  (if typeof_not_string functionArn
   then errors_push skipValidationWarning
   else validateForwarderArn aws functionArn) ;;
  entries <- (fun st => (Returned (resources st), st)) ;;
  for_of entries (loopBody service aws functionArn) ;;
  (fun st => (Returned (errors st), st)).

(** What a call leaves behind: its result, the service with its template as
    mutated, and the requests it sent, in order. *)
Record Run : Type := {
  outcome : Outcome (list string);
  service_after : Service;
  requests_sent : list Request
}.

Definition addCloudWatchForwarderSubscriptions (service : Service)
    (aws : Aws) (functionArn : ForwarderArn) : Run :=
  match service_Resources service with
  | None =>
      {| outcome := Returned [noStackMessage];
         service_after := service;
         requests_sent := [] |}
  | Some rs =>
      let (o, st) :=
        reconcile service aws functionArn
          {| resources := rs; errors := []; requests := [] |} in
      {| outcome := o;
         service_after := with_Resources service (resources st);
         requests_sent := requests st |}
  end.

(** ** Scenarios *)

Module Scenario.

Definition mkService (rs : Resources) : Service :=
  {| getServiceName := "my-service";
     compiledCloudFormationTemplate :=
       Some {| template_Resources := Some rs |} |}.

Definition logGroup (n : string) : JsValue :=
  JsObject [("Type", JsString logGroupKey);
            ("Properties", JsObject [("LogGroupName", JsString n)])].

Definition filter (n : string) : SubscriptionFilter :=
  {| creationTime := 0; destinationArn := "arn:other"; distribution := "";
     filterName := n; filterPattern := "";
     logGroupName := "/aws/lambda/my-service-dev-func"; roleArn := "" |}.

Definition mkAws (live : option (list SubscriptionFilter)) (found : bool)
    (stack : option string) : Aws :=
  {| request_getFunction := fun _ => if found then Some tt else None;
     request_describeSubscriptionFilters := fun _ => live;
     getStage := "dev";
     getStackName := stack |}.

Definition template : Resources :=
  [("FuncLogGroup", logGroup "/aws/lambda/my-service-dev-func")].

Definition forwarder : ForwarderArn := ArnString "arn:aws:lambda:forwarder".

(** A forwarder target written with a CloudFormation function. *)
Definition forwarderExpression : CloudFormationObjectArn :=
  [("Fn::Sub", JsString "${ForwarderStack.Outputs.Arn}")].

(** A log group whose name is itself a CloudFormation function. *)
Definition computedLogGroup : JsValue :=
  JsObject
    [("Type", JsString logGroupKey);
     ("Properties",
      JsObject
        [("LogGroupName",
          JsObject [("Fn::Sub", JsString "/aws/lambda/${Function}")])])].

End Scenario.

(** ** The scanner and the quota decision as functions

    The guard of the loop (lines 75-78) and the decision of
    [canSubscribeLogGroup] depend on the entry and on the live account only,
    not on the state; the lemmas below relate them to the code. *)

(** The guard at line 75 followed by the read at line 78: [Returned None]
    is [continue], [Returned (Some n)] a function-managed log group named
    [n]. *)
Definition lambdaLogGroupName (resource : JsValue) : Outcome (option string) :=
  match isLogGroup resource with
  | Thrown e => Thrown e
  | Returned false => Returned None
  | Returned true =>
      match get resource "Properties" with
      | Thrown e => Thrown e
      | Returned properties =>
          match get properties "LogGroupName" with
          | Returned (JsString logGroupName) =>
              if String.prefix "/aws/lambda/" logGroupName
              then Returned (Some logGroupName)
              else Returned None
          | Returned _ => Thrown TypeError
          | Thrown e => Thrown e
          end
      end
  end.

(** The filters [describeSubscriptionFilters] returns for a log group. *)
Definition liveFilters (aws : Aws) (logGroupName : string)
  : list SubscriptionFilter :=
  match request_describeSubscriptionFilters aws logGroupName with
  | Some subscriptionFilters => subscriptionFilters
  | None => []
  end.

Definition matchesPrefix (expectedSubName : string)
    (subscription : SubscriptionFilter) : bool :=
  String.prefix expectedSubName (filterName subscription).

(** The value [canSubscribeLogGroup] returns. *)
Definition canSubscribe (aws : Aws) (logGroupName expectedSubName : string)
  : bool :=
  existsb (matchesPrefix expectedSubName) (liveFilters aws logGroupName)
  || Nat.ltb (length (liveFilters aws logGroupName))
             maxAllowableLogGroupSubscriptions.

(** Whether an entry of the template is a function-managed log group that
    passes the quota check. *)
Definition admissible (service : Service) (aws : Aws)
    (entry : string * JsValue) : bool :=
  match lambdaLogGroupName (snd entry) with
  | Returned (Some logGroupName) =>
      canSubscribe aws logGroupName
        (expectedSubName service aws (fst entry ++ "Subscription")%string)
  | _ => false
  end.

(** The warnings an entry contributes to [errors]. *)
Definition entryWarnings (service : Service) (aws : Aws)
    (entry : string * JsValue) : list string :=
  match lambdaLogGroupName (snd entry) with
  | Returned (Some logGroupName) =>
      if canSubscribe aws logGroupName
           (expectedSubName service aws (fst entry ++ "Subscription")%string)
      then []
      else [quotaWarning logGroupName]
  | _ => []
  end.

(** The type predicate of [isLogGroup], [value is LogGroupResource]: a
    resource is an object, and one tagged [logGroupKey] has properties with
    a string [LogGroupName]. *)
Definition conformsToLogGroupResource (value : JsValue) : bool :=
  match get value "Properties" with
  | Returned properties =>
      match get properties "LogGroupName" with
      | Returned (JsString _) => true
      | _ => false
      end
  | Thrown _ => false
  end.

Definition typeGuardHolds (value : JsValue) : bool :=
  match isLogGroup value with
  | Returned true => conformsToLogGroupResource value
  | Returned false => true
  | Thrown _ => false
  end.

Definition wellTyped (rs : Resources) : bool :=
  forallb (fun entry => typeGuardHolds (snd entry)) rs.

(** What one iteration of the loop does to the state. *)
Definition step (service : Service) (aws : Aws) (functionArn : ForwarderArn)
    (st : State) (entry : string * JsValue) : State :=
  match lambdaLogGroupName (snd entry) with
  | Returned (Some logGroupName) =>
      let st' :=
        sent (CloudWatchLogs_describeSubscriptionFilters logGroupName) st in
      if admissible service aws entry
      then assigned (fst entry ++ "Subscription")%string
             (subscription (fst entry) functionArn) st'
      else pushed (quotaWarning logGroupName) st'
  | _ => st
  end.

(** The [Resources] object after the loop has run over [entries]. *)
Definition applySubscriptions (service : Service) (aws : Aws)
    (functionArn : ForwarderArn) (entries : list (string * JsValue))
    (rs : Resources) : Resources :=
  fold_left
    (fun rs entry =>
       if admissible service aws entry
       then set (fst entry ++ "Subscription")%string
              (subscription (fst entry) functionArn) rs
       else rs)
    entries rs.

(** The requests the loop sends over [entries]. *)
Definition entryRequests (entry : string * JsValue) : list Request :=
  match lambdaLogGroupName (snd entry) with
  | Returned (Some logGroupName) =>
      [CloudWatchLogs_describeSubscriptionFilters logGroupName]
  | _ => []
  end.

(** Lines 69-73 let the run continue: the target is not a string, or
    [getFunction] succeeds for it. *)
Definition validationPasses (aws : Aws) (functionArn : ForwarderArn) : bool :=
  typeof_not_string functionArn
  || match request_getFunction aws functionArn with
     | Some _ => true
     | None => false
     end.

Definition validationWarnings (functionArn : ForwarderArn) : list string :=
  if typeof_not_string functionArn then [skipValidationWarning] else [].

Definition validationRequests (functionArn : ForwarderArn) : list Request :=
  if typeof_not_string functionArn then []
  else [Lambda_getFunction functionArn].

(** The names of a [Resources] object. *)
Definition keys (rs : Resources) : list string := map fst rs.

(** ** The handler wrappers (the file that defines [writeHandlers])

    [getHandlerPath] and [getWrapperText].  The file imports [HandlerInfo]
    and [RuntimeType] from [./layer] and the two templates from
    [./templates]; none of them is among the sources, so the runtime type,
    its members [NODE] and [PYTHON], its equality and the templates are
    parameters, and [HandlerInfo] has the properties this file reads. *)

Module FunctionDefinition.
(** The function definition of the framework; only [handler] is read. *)
Record t : Type := { handler : string }.
End FunctionDefinition.

Module Wrapper.

(** [s.split(separator)] for a separator of one character: the pieces of
    [s] between the separators, of which there is always at least one. *)
Fixpoint split (separator : ascii) (s : string) : list string :=
  match s with
  | EmptyString => [EmptyString]
  | String c s' =>
      if Ascii.eqb c separator
      then EmptyString :: split separator s'
      else match split separator s' with
           | part :: parts => String c part :: parts
           | [] => [String c EmptyString]
           end
  end.

(** [parts.join(separator)] *)
Fixpoint join (separator : string) (parts : list string) : string :=
  match parts with
  | [] => EmptyString
  | part :: parts' =>
      match parts' with
      | [] => part
      | _ :: _ => (part ++ separator ++ join separator parts')%string
      end
  end.

(** [s.includes(c)] for one character; used to state results. *)
Fixpoint includes (c : ascii) (s : string) : bool :=
  match s with
  | EmptyString => false
  | String c' s' => Ascii.eqb c' c || includes c s'
  end.

(** What [getHandlerPath] returns when it returns an object. *)
Record HandlerPath : Type := { method : string; filename : string }.

(** What [getWrapperText] returns when it returns an object. *)
Record WrapperText : Type := { text : string; text_method : string }.

Section Runtime.
Variable RuntimeType : Type.
Variables NODE PYTHON : RuntimeType.
(** [===] on runtime types. *)
Variable RuntimeType_eqb : RuntimeType -> RuntimeType -> bool.
Variables nodeTemplate pythonTemplate : string -> string -> string.

Record HandlerInfo : Type := {
  name : string;
  type : RuntimeType;
  handler : FunctionDefinition.t
}.

Definition getHandlerPath (handlerInfo : HandlerInfo) : option HandlerPath :=
  let handlerfile := FunctionDefinition.handler (handler handlerInfo) in
  let parts := split "." handlerfile in
  if Nat.ltb (length parts) 2 then None
  else
    let method := last parts EmptyString in
    let filename := join "." (removelast parts) in
    Some {| method := method; filename := filename |}.

Definition getWrapperText (handlerInfo : HandlerInfo) : option WrapperText :=
  match getHandlerPath handlerInfo with
  | None => None
  | Some result =>
      if RuntimeType_eqb (type handlerInfo) NODE
      then Some {| text := nodeTemplate (filename result) (method result);
                   text_method := method result |}
      else if RuntimeType_eqb (type handlerInfo) PYTHON
      then Some {| text := pythonTemplate (filename result) (method result);
                   text_method := method result |}
      else None
  end.
End Runtime.

End Wrapper.

(** ** Strings *)

Lemma length_append (s t : string) :
  String.length (s ++ t) = String.length s + String.length t.
Proof. induction s as [|c s IH]; simpl; [reflexivity | now rewrite IH]. Qed.

(** A common suffix can be cancelled. *)
Lemma append_inj_l (suffix s t : string) :
  (s ++ suffix)%string = (t ++ suffix)%string -> s = t.
Proof.
  revert t; induction s as [|c s IH]; intros [|d t] H; simpl in H.
  - reflexivity.
  - apply (f_equal String.length) in H; simpl in H.
    rewrite length_append in H; lia.
  - apply (f_equal String.length) in H; simpl in H.
    rewrite length_append in H; lia.
  - injection H as -> H. f_equal. now apply IH.
Qed.

Lemma append_assoc (s t u : string) :
  ((s ++ t) ++ u)%string = (s ++ t ++ u)%string.
Proof. induction s as [|c s IH]; simpl; [reflexivity | now rewrite IH]. Qed.

Lemma scoped_name_inj (n m : string) :
  (n ++ "Subscription")%string = (m ++ "Subscription")%string -> n = m.
Proof. apply append_inj_l. Qed.

(** ** Objects *)

Section Objects.
Context {V : Type}.
Implicit Types (o : list (string * V)) (k : string) (v : V).

Lemma lookup_set_same k v o : lookup k (set k v o) = Some v.
Proof.
  induction o as [|[k' v'] o IH]; simpl.
  - now rewrite String.eqb_refl.
  - destruct (String.eqb k k') eqn:E; simpl.
    + now rewrite String.eqb_refl.
    + now rewrite E.
Qed.

Lemma lookup_set_other k k' v o :
  k' <> k -> lookup k' (set k v o) = lookup k' o.
Proof.
  intros Hne. induction o as [|[k0 v0] o IH]; simpl.
  - destruct (String.eqb_spec k' k); [contradiction | reflexivity].
  - destruct (String.eqb_spec k k0) as [->|Hk]; simpl.
    + destruct (String.eqb_spec k' k0); [contradiction | reflexivity].
    + now rewrite IH.
Qed.

(** Assigning the value a property already has changes nothing. *)
Lemma set_lookup_id k v o : lookup k o = Some v -> set k v o = o.
Proof.
  induction o as [|[k' v'] o IH]; simpl; [discriminate|].
  destruct (String.eqb_spec k k') as [->|Hk].
  - now intros [= ->].
  - intros H. now rewrite IH.
Qed.

Lemma lookup_None_keys k o : lookup k o = None <-> ~ In k (map fst o).
Proof.
  induction o as [|[k' v'] o IH]; simpl; [tauto|].
  destruct (String.eqb_spec k k') as [->|Hk].
  - split; [discriminate | intros H; exfalso; apply H; now left].
  - rewrite IH. split; [intros H [E|E]; [congruence | tauto] | tauto].
Qed.

Lemma In_lookup_NoDup k v o :
  NoDup (map fst o) -> In (k, v) o -> lookup k o = Some v.
Proof.
  induction o as [|[k' v'] o IH]; simpl; [tauto|].
  intros Hnd [E|Hin].
  - injection E as -> ->. now rewrite String.eqb_refl.
  - inversion Hnd as [|? ? Hnotin Hnd']; subst.
    destruct (String.eqb_spec k k') as [->|Hk].
    + exfalso. apply Hnotin. now apply (in_map fst) in Hin.
    + now apply IH.
Qed.

(** An assignment keeps every name, in place, and adds at most one. *)
Lemma keys_set k v o :
  map fst (set k v o)
  = match lookup k o with
    | Some _ => map fst o
    | None => map fst o ++ [k]
    end.
Proof.
  induction o as [|[k' v'] o IH]; simpl; [reflexivity|].
  destruct (String.eqb_spec k k') as [->|Hk]; simpl; [reflexivity|].
  rewrite IH. now destruct (lookup k o).
Qed.

Lemma NoDup_keys_set k v o :
  NoDup (map fst o) -> NoDup (map fst (set k v o)).
Proof.
  intros Hnd. rewrite keys_set.
  destruct (lookup k o) eqn:E; [assumption|].
  apply lookup_None_keys in E.
  apply NoDup_app; [assumption | repeat constructor; simpl; tauto |].
  intros x Hx [<-|[]]. contradiction.
Qed.

Lemma lookup_set_Some k k' v o :
  lookup k' o <> None -> lookup k' (set k v o) <> None.
Proof.
  intros H. destruct (String.eqb_spec k' k) as [->|Hk].
  - now rewrite lookup_set_same.
  - now rewrite lookup_set_other.
Qed.
End Objects.

(** ** The helpers, run *)

Lemma scanSubscriptionFilters_from (expected : string)
    (l : list SubscriptionFilter) (found : bool) :
  fold_left
    (fun acc subscription =>
       if String.prefix expected (filterName subscription) then true else acc)
    l found
  = found || existsb (matchesPrefix expected) l.
Proof.
  revert found; induction l as [|f l IH]; intros found; simpl.
  - now rewrite orb_false_r.
  - rewrite IH. unfold matchesPrefix.
    destruct (String.prefix expected (filterName f)), found; reflexivity.
Qed.

Lemma scanSubscriptionFilters_existsb (expected : string)
    (l : list SubscriptionFilter) :
  scanSubscriptionFilters expected l = existsb (matchesPrefix expected) l.
Proof.
  unfold scanSubscriptionFilters. now rewrite scanSubscriptionFilters_from.
Qed.

Lemma describeSubscriptionFilters_run (aws : Aws) (name : string) (st : State) :
  describeSubscriptionFilters aws name st
  = (Returned (liveFilters aws name),
     sent (CloudWatchLogs_describeSubscriptionFilters name) st).
Proof.
  unfold describeSubscriptionFilters, liveFilters, bind, aws_request, ret.
  now destruct (request_describeSubscriptionFilters aws name).
Qed.

Lemma canSubscribeLogGroup_run (aws : Aws) (name expected : string)
    (st : State) :
  canSubscribeLogGroup aws name expected st
  = (Returned (canSubscribe aws name expected),
     sent (CloudWatchLogs_describeSubscriptionFilters name) st).
Proof.
  unfold canSubscribeLogGroup, bind.
  rewrite describeSubscriptionFilters_run, scanSubscriptionFilters_existsb.
  unfold canSubscribe, maxAllowableLogGroupSubscriptions, ret.
  destruct (existsb _ _); simpl; [reflexivity|].
  destruct (liveFilters aws name) as [|? [|? ?]]; reflexivity.
Qed.

(** ** The loop *)

Section Loop.
Variables (service : Service) (aws : Aws) (functionArn : ForwarderArn).

Lemma typeGuardHolds_scan (resource : JsValue) :
  typeGuardHolds resource = true
  <-> exists o, lambdaLogGroupName resource = Returned o.
Proof.
  unfold typeGuardHolds, lambdaLogGroupName, conformsToLogGroupResource.
  destruct (isLogGroup resource) as [[|]|e].
  - destruct (get resource "Properties") as [properties|e].
    + destruct (get properties "LogGroupName") as [[| | |s|]|e];
        try (split; [discriminate | intros [o Ho]; discriminate]).
      split; [intros _ | reflexivity].
      destruct (String.prefix "/aws/lambda/" s); eauto.
    + split; [discriminate | intros [o Ho]; discriminate].
  - split; eauto.
  - split; [discriminate | intros [o Ho]; discriminate].
Qed.

(** The scanner only ever throws a [TypeError]. *)
Lemma lambdaLogGroupName_Thrown (resource : JsValue) (e : Exn) :
  lambdaLogGroupName resource = Thrown e -> e = TypeError.
Proof.
  unfold lambdaLogGroupName, isLogGroup, get.
  destruct resource as [| | | |props]; try congruence.
  destruct (lookup "Type" props) as [[| | |t|]|]; try congruence.
  destruct (String.eqb t logGroupKey); try congruence.
  destruct (lookup "Properties" props) as [[| | |?|ps]|]; try congruence.
  destruct (lookup "LogGroupName" ps) as [[| | |s|]|]; try congruence.
  destruct (String.prefix "/aws/lambda/" s); congruence.
Qed.

Lemma loopBody_run (entry : string * JsValue) (st : State) :
  loopBody service aws functionArn entry st
  = match lambdaLogGroupName (snd entry) with
    | Returned _ => (Returned tt, step service aws functionArn st entry)
    | Thrown e => (Thrown e, st)
    end.
Proof.
  destruct entry as [name resource].
  unfold loopBody, step, admissible, lambdaLogGroupName, bind, lift; simpl.
  destruct (isLogGroup resource) as [[|]|e]; simpl; try reflexivity.
  destruct (get resource "Properties") as [properties|e]; [|reflexivity].
  destruct (get properties "LogGroupName") as [[| | |s|]|e];
    try reflexivity.
  destruct (String.prefix "/aws/lambda/" s); simpl; [|reflexivity].
  rewrite canSubscribeLogGroup_run.
  now destruct (canSubscribe aws s _).
Qed.

Lemma for_of_wellTyped (entries : list (string * JsValue)) (st : State) :
  wellTyped entries = true ->
  for_of entries (loopBody service aws functionArn) st
  = (Returned tt, fold_left (step service aws functionArn) entries st).
Proof.
  revert st; induction entries as [|entry entries IH]; intros st H.
  - reflexivity.
  - simpl in H. apply andb_prop in H as [Hty H].
    apply typeGuardHolds_scan in Hty as [o Ho].
    simpl. unfold bind. rewrite loopBody_run, Ho. now apply IH.
Qed.

(** The loop returns only if no entry makes the scanner throw. *)
Lemma for_of_Returned (entries : list (string * JsValue)) (st st' : State)
    (u : unit) :
  for_of entries (loopBody service aws functionArn) st = (Returned u, st') ->
  wellTyped entries = true.
Proof.
  revert st; induction entries as [|entry entries IH]; intros st H.
  - reflexivity.
  - simpl in H. unfold bind in H. rewrite loopBody_run in H.
    simpl. destruct (lambdaLogGroupName (snd entry)) as [o|e] eqn:Ho;
      [|discriminate].
    apply andb_true_intro; split; [|now apply IH in H].
    apply typeGuardHolds_scan; eauto.
Qed.

(** A [TypeError] is the only exception of the loop. *)
Lemma for_of_Thrown (entries : list (string * JsValue)) (st st' : State)
    (e : Exn) :
  for_of entries (loopBody service aws functionArn) st = (Thrown e, st') ->
  e = TypeError.
Proof.
  revert st; induction entries as [|entry entries IH]; intros st H.
  - discriminate.
  - simpl in H. unfold bind in H. rewrite loopBody_run in H.
    destruct (lambdaLogGroupName (snd entry)) as [o|e'] eqn:Ho.
    + now apply IH in H.
    + injection H as <- _. now apply lambdaLogGroupName_Thrown in Ho.
Qed.

(** The three components of the state after the loop. *)
Lemma resources_fold (entries : list (string * JsValue)) (st : State) :
  resources (fold_left (step service aws functionArn) entries st)
  = applySubscriptions service aws functionArn entries (resources st).
Proof.
  unfold applySubscriptions.
  revert st; induction entries as [|entry entries IH]; intros st;
    [reflexivity|].
  simpl. rewrite IH. f_equal.
  unfold step, admissible.
  destruct (lambdaLogGroupName (snd entry)) as [[n|]|e]; try reflexivity.
  now destruct (canSubscribe aws n _).
Qed.

Lemma errors_fold (entries : list (string * JsValue)) (st : State) :
  errors (fold_left (step service aws functionArn) entries st)
  = errors st ++ flat_map (entryWarnings service aws) entries.
Proof.
  revert st; induction entries as [|entry entries IH]; intros st; simpl.
  - now rewrite app_nil_r.
  - rewrite IH, app_assoc. f_equal.
    unfold step, admissible, entryWarnings.
    destruct (lambdaLogGroupName (snd entry)) as [[n|]|e];
      try (now rewrite app_nil_r).
    destruct (canSubscribe aws n _); simpl; [now rewrite app_nil_r|].
    reflexivity.
Qed.

Lemma requests_fold (entries : list (string * JsValue)) (st : State) :
  requests (fold_left (step service aws functionArn) entries st)
  = requests st ++ flat_map entryRequests entries.
Proof.
  revert st; induction entries as [|entry entries IH]; intros st; simpl.
  - now rewrite app_nil_r.
  - rewrite IH, app_assoc. f_equal.
    unfold step, admissible, entryRequests.
    destruct (lambdaLogGroupName (snd entry)) as [[n|]|e];
      try (now rewrite app_nil_r).
    now destruct (canSubscribe aws n _).
Qed.
(** The loop over a list in two parts is the loop over the first part
    followed by the loop over the second. *)
Lemma for_of_app (before after : list (string * JsValue)) (st : State) :
  for_of (before ++ after) (loopBody service aws functionArn) st
  = (for_of before (loopBody service aws functionArn) ;;
     for_of after (loopBody service aws functionArn)) st.
Proof.
  revert st; induction before as [|entry before IH]; intros st.
  - reflexivity.
  - simpl. unfold bind.
    destruct (loopBody service aws functionArn entry st) as [[u|e] st1];
      [|reflexivity].
    rewrite IH. reflexivity.
Qed.

Lemma resources_step (entry : string * JsValue) (st : State) :
  resources (step service aws functionArn st entry)
  = if admissible service aws entry
    then set (fst entry ++ "Subscription")%string
           (subscription (fst entry) functionArn) (resources st)
    else resources st.
Proof.
  unfold step, admissible.
  destruct (lambdaLogGroupName (snd entry)) as [[n|]|e]; try reflexivity.
  now destruct (canSubscribe aws n _).
Qed.

(** However the loop ends, the template holds the subscriptions of the
    entries that were processed, and nothing else has changed. *)
Lemma for_of_resources (entries : list (string * JsValue)) (st st' : State)
    (o : Outcome unit) :
  for_of entries (loopBody service aws functionArn) st = (o, st') ->
  exists processed rest,
    entries = processed ++ rest
    /\ resources st'
       = applySubscriptions service aws functionArn processed (resources st).
Proof.
  revert st; induction entries as [|entry entries IH]; intros st H.
  - exists [], []. injection H as _ <-. now split.
  - simpl in H. unfold bind in H. rewrite loopBody_run in H.
    destruct (lambdaLogGroupName (snd entry)) as [x|e].
    + apply IH in H as (processed & rest & -> & Hres).
      exists (entry :: processed), rest. split; [reflexivity|].
      rewrite Hres. unfold applySubscriptions. simpl.
      now rewrite resources_step.
    + exists [], (entry :: entries). injection H as _ <-. now split.
Qed.
End Loop.

(** ** The template after the loop *)

Section Template.
Variables (service : Service) (aws : Aws) (functionArn : ForwarderArn).

Local Abbreviation apply := (applySubscriptions service aws functionArn).

Lemma apply_cons entry entries rs :
  apply (entry :: entries) rs
  = apply entries
      (if admissible service aws entry
       then set (fst entry ++ "Subscription")%string
              (subscription (fst entry) functionArn) rs
       else rs).
Proof. reflexivity. Qed.

(** A name that no admissible entry derives keeps its resource. *)
Lemma lookup_apply_other (k : string) entries rs :
  (forall name resource,
      In (name, resource) entries ->
      admissible service aws (name, resource) = true ->
      k <> (name ++ "Subscription")%string) ->
  lookup k (apply entries rs) = lookup k rs.
Proof.
  revert rs; induction entries as [|[name resource] entries IH];
    intros rs H; [reflexivity|].
  rewrite apply_cons, IH.
  - destruct (admissible service aws (name, resource)) eqn:E;
      [|reflexivity].
    simpl. apply lookup_set_other. apply (H name resource); [now left|].
    exact E.
  - intros n r Hin. apply H. now right.
Qed.

(** Once the subscription of [name] is in place, the loop keeps it. *)
Lemma lookup_apply_kept (name : string) entries rs :
  lookup (name ++ "Subscription")%string rs
  = Some (subscription name functionArn) ->
  lookup (name ++ "Subscription")%string (apply entries rs)
  = Some (subscription name functionArn).
Proof.
  revert rs; induction entries as [|[n r] entries IH]; intros rs H;
    [exact H|].
  rewrite apply_cons. apply IH.
  destruct (admissible service aws (n, r)); [|exact H]. simpl.
  destruct (String.eqb_spec (name ++ "Subscription") (n ++ "Subscription"))
    as [E|E].
  - rewrite <- E, lookup_set_same.
    now rewrite (scoped_name_inj _ _ E).
  - now rewrite lookup_set_other.
Qed.

(** Every admissible entry ends with its subscription in the template. *)
Lemma lookup_apply_admissible (name : string) (resource : JsValue)
    entries rs :
  In (name, resource) entries ->
  admissible service aws (name, resource) = true ->
  lookup (name ++ "Subscription")%string (apply entries rs)
  = Some (subscription name functionArn).
Proof.
  revert rs; induction entries as [|[n r] entries IH]; intros rs Hin Hadm;
    [contradiction|].
  destruct Hin as [E|Hin].
  - injection E as -> ->. rewrite apply_cons, Hadm. simpl.
    apply lookup_apply_kept, lookup_set_same.
  - rewrite apply_cons. now apply IH.
Qed.

(** A resource of the result is an original one or a subscription. *)
Lemma In_apply (k : string) (v : JsValue) entries rs :
  In (k, v) (apply entries rs) ->
  In (k, v) rs
  \/ exists name resource,
       In (name, resource) entries
       /\ admissible service aws (name, resource) = true
       /\ k = (name ++ "Subscription")%string
       /\ v = subscription name functionArn.
Proof.
  revert rs; induction entries as [|[n r] entries IH]; intros rs H;
    [now left|].
  rewrite apply_cons in H. apply IH in H as [H|(n' & r' & Hin & Ha & Hk & Hv)].
  - destruct (admissible service aws (n, r)) eqn:E; [|now left].
    simpl in H.
    assert (Hset : forall o : Resources,
               In (k, v) (set (n ++ "Subscription")%string
                            (subscription n functionArn) o) ->
               In (k, v) o
               \/ (k, v) = ((n ++ "Subscription")%string,
                            subscription n functionArn)).
    { induction o as [|[k0 v0] o IHo]; simpl.
      - intros [<-|[]]. now right.
      - destruct (String.eqb (n ++ "Subscription") k0); simpl.
        + intros [<-|Hin]; [now right | left; now right].
        + intros [<-|Hin]; [left; now left|].
          apply IHo in Hin as [Hin|Hin]; [left; now right | now right]. }
    apply Hset in H as [H|H]; [now left|].
    injection H as -> ->. right. exists n, r. repeat split; auto. now left.
  - right. exists n', r'. repeat split; auto. now right.
Qed.

(** No name is removed, and the names stay in place. *)
Lemma keys_apply entries rs :
  exists added, keys (apply entries rs) = keys rs ++ added.
Proof.
  revert rs; induction entries as [|entry entries IH]; intros rs.
  - exists []. now rewrite app_nil_r.
  - rewrite apply_cons.
    destruct (admissible service aws entry).
    + destruct (IH (set (fst entry ++ "Subscription")%string
                      (subscription (fst entry) functionArn) rs))
        as [added Ha].
      rewrite Ha. unfold keys. rewrite keys_set.
      destruct (lookup _ rs); [now exists added|].
      rewrite <- app_assoc. now eexists.
    + apply IH.
Qed.

Lemma lookup_apply_Some (k : string) entries rs :
  lookup k rs <> None -> lookup k (apply entries rs) <> None.
Proof.
  revert rs; induction entries as [|entry entries IH]; intros rs H;
    [exact H|].
  rewrite apply_cons. apply IH.
  destruct (admissible service aws entry); [|exact H].
  now apply lookup_set_Some.
Qed.

Lemma NoDup_keys_apply entries rs :
  NoDup (keys rs) -> NoDup (keys (apply entries rs)).
Proof.
  revert rs; induction entries as [|entry entries IH]; intros rs H;
    [exact H|].
  rewrite apply_cons. apply IH.
  destruct (admissible service aws entry); [|exact H].
  now apply NoDup_keys_set.
Qed.

(** When every admissible entry already has its subscription, the loop
    leaves the template as it is. *)
Lemma apply_fixed entries rs :
  (forall name resource,
      In (name, resource) entries ->
      admissible service aws (name, resource) = true ->
      lookup (name ++ "Subscription")%string rs
      = Some (subscription name functionArn)) ->
  apply entries rs = rs.
Proof.
  induction entries as [|[n r] entries IH]; intros H; [reflexivity|].
  rewrite apply_cons.
  destruct (admissible service aws (n, r)) eqn:E; simpl.
  - rewrite set_lookup_id; [|apply (H n r); [now left | exact E]].
    apply IH. intros n' r' Hin. apply H. now right.
  - apply IH. intros n' r' Hin. apply H. now right.
Qed.

(** The resource the program writes is not a log group. *)
Lemma subscription_not_logGroup (name : string) :
  lambdaLogGroupName (subscription name functionArn) = Returned None.
Proof. reflexivity. Qed.

(** Running the loop on its own result changes nothing. *)
Lemma apply_idempotent rs :
  apply (apply rs rs) (apply rs rs) = apply rs rs.
Proof.
  apply apply_fixed. intros name resource Hin Hadm.
  apply In_apply in Hin as [Hin|(n & r & _ & _ & -> & ->)].
  - now apply (lookup_apply_admissible name resource).
  - unfold admissible in Hadm. simpl snd in Hadm.
    now rewrite subscription_not_logGroup in Hadm.
Qed.

Lemma wellTyped_apply rs :
  wellTyped rs = true -> wellTyped (apply rs rs) = true.
Proof.
  unfold wellTyped. rewrite !forallb_forall. intros H [k v] Hin.
  apply In_apply in Hin as [Hin|(n & r & _ & _ & -> & ->)].
  - now apply (H (k, v)).
  - reflexivity.
Qed.
End Template.

(** ** The whole function *)

Lemma with_Resources_same (service : Service) (rs : Resources) :
  service_Resources service = Some rs -> with_Resources service rs = service.
Proof.
  destruct service as [n [[[rs'|]]|]]; unfold service_Resources, with_Resources;
    simpl; try discriminate.
  now intros [= ->].
Qed.

Lemma service_Resources_with (service : Service) (rs0 rs : Resources) :
  service_Resources service = Some rs0 ->
  service_Resources (with_Resources service rs) = Some rs.
Proof.
  destruct service as [n [[[rs'|]]|]]; unfold service_Resources, with_Resources;
    simpl; try discriminate.
  reflexivity.
Qed.

Lemma with_Resources_twice (service : Service) (rs rs' : Resources) :
  with_Resources (with_Resources service rs) rs' = with_Resources service rs'.
Proof. now destruct service as [n [[[?|]]|]]. Qed.

Section Whole.
Variables (service : Service) (aws : Aws) (functionArn : ForwarderArn).
Variable rs : Resources.
Hypothesis Hrs : service_Resources service = Some rs.

Local Abbreviation run :=
  (addCloudWatchForwarderSubscriptions service aws functionArn).

(** The state in which the loop starts when validation lets the run continue. *)
Lemma validation_run (st : State) :
  validationPasses aws functionArn = true ->
  (if typeof_not_string functionArn
   then errors_push skipValidationWarning
   else validateForwarderArn aws functionArn) st
  = (Returned tt,
     {| resources := resources st;
        errors := errors st ++ validationWarnings functionArn;
        requests := requests st ++ validationRequests functionArn |}).
Proof.
  unfold validationPasses, validationWarnings, validationRequests,
    validateForwarderArn, bind, aws_request, errors_push, pushed, sent.
  destruct (typeof_not_string functionArn); simpl.
  - intros _. now rewrite app_nil_r.
  - destruct (request_getFunction aws functionArn); [|discriminate].
    intros _. now rewrite app_nil_r.
Qed.

Lemma run_validation_fails :
  validationPasses aws functionArn = false ->
  run = {| outcome :=
             Thrown (DatadogForwarderNotFoundError
                       ("Could not perform GetFunction on "
                        ++ arnToString functionArn ++ ".")%string);
           service_after := service;
           requests_sent := [Lambda_getFunction functionArn] |}.
Proof.
  unfold validationPasses, addCloudWatchForwarderSubscriptions. rewrite Hrs.
  unfold reconcile, bind, validateForwarderArn, bind, aws_request, throw.
  destruct (typeof_not_string functionArn); [discriminate|]. simpl.
  destruct (request_getFunction aws functionArn); [discriminate|].
  intros _. simpl. now rewrite with_Resources_same.
Qed.

Lemma run_passes :
  validationPasses aws functionArn = true ->
  wellTyped rs = true ->
  run = {| outcome :=
             Returned (validationWarnings functionArn
                       ++ flat_map (entryWarnings service aws) rs);
           service_after :=
             with_Resources service
               (applySubscriptions service aws functionArn rs rs);
           requests_sent :=
             validationRequests functionArn ++ flat_map entryRequests rs |}.
Proof.
  intros Hval Hty.
  unfold addCloudWatchForwarderSubscriptions. rewrite Hrs.
  unfold reconcile, bind. rewrite validation_run by exact Hval. simpl.
  rewrite for_of_wellTyped by exact Hty.
  now rewrite errors_fold, resources_fold, requests_fold.
Qed.

(** The run ends in one of three ways. *)
Lemma run_cases :
  (validationPasses aws functionArn = false)
  \/ (validationPasses aws functionArn = true /\ wellTyped rs = true)
  \/ (validationPasses aws functionArn = true
      /\ outcome run = Thrown TypeError).
Proof.
  destruct (validationPasses aws functionArn) eqn:Hval; [right | now left].
  unfold addCloudWatchForwarderSubscriptions. rewrite Hrs.
  unfold reconcile, bind. rewrite validation_run by exact Hval. simpl.
  destruct (for_of rs _ _) as [[u|e] st'] eqn:Hloop.
  - left. split; [reflexivity|]. now apply for_of_Returned in Hloop.
  - right. split; [reflexivity|]. simpl.
    now rewrite (for_of_Thrown _ _ _ _ _ _ _ Hloop).
Qed.

Lemma run_Returned (warnings : list string) :
  outcome run = Returned warnings ->
  validationPasses aws functionArn = true /\ wellTyped rs = true.
Proof.
  intros H. destruct run_cases as [Hg|[Hg|[_ Hg]]].
  - rewrite (run_validation_fails Hg) in H. discriminate.
  - exact Hg.
  - rewrite Hg in H. discriminate.
Qed.
(** Whatever the outcome, the service is left with the subscriptions of the
    entries that the loop processed. *)
Lemma run_resources :
  exists processed rest,
    rs = processed ++ rest
    /\ service_after run
       = with_Resources service
           (applySubscriptions service aws functionArn processed rs).
Proof.
  destruct (validationPasses aws functionArn) eqn:Hval.
  - unfold addCloudWatchForwarderSubscriptions. rewrite Hrs.
    unfold reconcile, bind. rewrite validation_run by exact Hval. simpl.
    destruct (for_of rs _ _) as [o st'] eqn:Hloop.
    apply for_of_resources in Hloop as (processed & rest & E & Hres).
    exists processed, rest. split; [exact E|].
    simpl in Hres. rewrite <- Hres. now destruct o.
  - rewrite (run_validation_fails Hval). simpl.
    exists [], rs. split; [reflexivity|]. simpl.
    now rewrite with_Resources_same.
Qed.
End Whole.

(** ** The scenarios of the specification, run *)

(** No live filter: no warning, and the template gains the subscription. *)
Example scenario_no_filters :
  let run :=
    addCloudWatchForwarderSubscriptions
      (Scenario.mkService Scenario.template)
      (Scenario.mkAws (Some []) true None) Scenario.forwarder in
  outcome run = Returned []
  /\ service_Resources (service_after run)
     = Some (Scenario.template
             ++ [("FuncLogGroupSubscription"%string,
                  subscription "FuncLogGroup" Scenario.forwarder)]).
Proof. split; reflexivity. Qed.

(** Two unrelated filters: one warning, no subscription. *)
Example scenario_two_unrelated_filters :
  let run :=
    addCloudWatchForwarderSubscriptions
      (Scenario.mkService Scenario.template)
      (Scenario.mkAws (Some [Scenario.filter "a"; Scenario.filter "b"])
         true None)
      Scenario.forwarder in
  outcome run = Returned [quotaWarning "/aws/lambda/my-service-dev-func"]
  /\ service_Resources (service_after run) = Some Scenario.template.
Proof. split; reflexivity. Qed.

(** A filter of an earlier deployment and an unrelated one: the match wins
    over the count. *)
Example scenario_own_filter_and_another :
  let run :=
    addCloudWatchForwarderSubscriptions
      (Scenario.mkService Scenario.template)
      (Scenario.mkAws
         (Some [Scenario.filter "my-service-dev-FuncLogGroupSubscription-XYZ";
                Scenario.filter "b"])
         true None)
      Scenario.forwarder in
  outcome run = Returned []
  /\ service_Resources (service_after run)
     = Some (Scenario.template
             ++ [("FuncLogGroupSubscription"%string,
                  subscription "FuncLogGroup" Scenario.forwarder)]).
Proof. split; reflexivity. Qed.

(** ** The quota check *)


(** C7.  When the request that lists the filters of a log group is
    rejected, [describeSubscriptionFilters] returns the empty list and raises
    nothing, and [canSubscribeLogGroup] goes on exactly as it does for a log
    group with no filters: it returns [true]. *)
Theorem describeSubscriptionFilters_failure_is_empty (aws : Aws)
    (logGroupName expectedSubName : string) (st : State) :
  request_describeSubscriptionFilters aws logGroupName = None ->
  fst (describeSubscriptionFilters aws logGroupName st) = Returned []
  /\ fst (canSubscribeLogGroup aws logGroupName expectedSubName st)
     = Returned true
  /\ forall aws0 : Aws,
       request_describeSubscriptionFilters aws0 logGroupName = Some [] ->
       canSubscribeLogGroup aws logGroupName expectedSubName st
       = canSubscribeLogGroup aws0 logGroupName expectedSubName st.
Proof.
  intros H.
  rewrite describeSubscriptionFilters_run, !canSubscribeLogGroup_run.
  unfold canSubscribe, liveFilters. rewrite H. simpl.
  repeat split. intros aws0 H0.
  rewrite canSubscribeLogGroup_run. unfold canSubscribe, liveFilters.
  now rewrite H0.
Qed.

Lemma describeSubscriptionFilters_failure_is_empty_witness :
  let aws := Scenario.mkAws None true None in
  let st :=
    {| resources := Scenario.template; errors := []; requests := [] |} in
  fst (describeSubscriptionFilters aws "/aws/lambda/my-service-dev-func" st)
  = Returned []
  /\ fst (canSubscribeLogGroup aws "/aws/lambda/my-service-dev-func"
            "my-service-dev-FuncLogGroupSubscription-" st)
     = Returned true.
Proof.
  intros aws st.
  destruct (describeSubscriptionFilters_failure_is_empty aws
              "/aws/lambda/my-service-dev-func"
              "my-service-dev-FuncLogGroupSubscription-" st)
    as (H1 & H2 & _); [reflexivity|].
  split; [exact H1 | exact H2].
Defined.

(** ** Before the loop *)

(** C2.  When the template has a resource section, the forwarder target is a
    string and [getFunction] fails for it, the call raises
    [DatadogForwarderNotFoundError]: it returns no warnings, leaves the
    service and its template as they were, and has sent the [getFunction]
    request and nothing else, so no log group was looked at. *)
Theorem forwarder_not_found_aborts (service : Service) (aws : Aws)
    (arn : string) (rs : Resources) :
  service_Resources service = Some rs ->
  request_getFunction aws (ArnString arn) = None ->
  let run := addCloudWatchForwarderSubscriptions service aws (ArnString arn) in
  outcome run
  = Thrown (DatadogForwarderNotFoundError
              ("Could not perform GetFunction on " ++ arn ++ ".")%string)
  /\ (forall warnings, outcome run <> Returned warnings)
  /\ service_after run = service
  /\ service_Resources (service_after run) = Some rs
  /\ requests_sent run = [Lambda_getFunction (ArnString arn)]
  /\ (forall name,
        ~ In (CloudWatchLogs_describeSubscriptionFilters name)
             (requests_sent run)).
Proof.
  intros Hrs Hfail run.
  assert (Hval : validationPasses aws (ArnString arn) = false)
    by (unfold validationPasses; simpl; now rewrite Hfail).
  unfold run. rewrite (run_validation_fails _ _ _ _ Hrs Hval). simpl.
  repeat split; try assumption; try discriminate.
  intros name [H|[]]. discriminate.
Qed.

Lemma forwarder_not_found_aborts_witness :
  let service := Scenario.mkService Scenario.template in
  let run :=
    addCloudWatchForwarderSubscriptions service
      (Scenario.mkAws (Some []) false None) Scenario.forwarder in
  outcome run
  = Thrown (DatadogForwarderNotFoundError
              "Could not perform GetFunction on arn:aws:lambda:forwarder.")
  /\ service_after run = service.
Proof.
  intros service run.
  destruct (forwarder_not_found_aborts service
              (Scenario.mkAws (Some []) false None)
              "arn:aws:lambda:forwarder" Scenario.template)
    as (H1 & _ & H2 & _); [reflexivity | reflexivity |].
  split; [exact H1 | exact H2].
Defined.

(** C8.  When the template has no resource section, whatever the forwarder
    target is, the call returns exactly one message, the note that
    reconciliation was skipped; it raises nothing, leaves the service as it
    was and sends no request. *)
Theorem no_resources_is_skipped (service : Service) (aws : Aws)
    (functionArn : ForwarderArn) :
  service_Resources service = None ->
  let run := addCloudWatchForwarderSubscriptions service aws functionArn in
  outcome run = Returned [noStackMessage]
  /\ service_after run = service
  /\ requests_sent run = [].
Proof.
  intros H. unfold addCloudWatchForwarderSubscriptions. now rewrite H.
Qed.

Lemma no_resources_is_skipped_witness :
  let service :=
    {| getServiceName := "my-service";
       compiledCloudFormationTemplate := None |} in
  let run :=
    addCloudWatchForwarderSubscriptions service (Scenario.mkAws None false None)
      Scenario.forwarder in
  outcome run
  = Returned
      ["No cloudformation stack available. Skipping subscribing Datadog forwarder."]
  /\ service_after run = service
  /\ requests_sent run = [].
Proof.
  intros service run.
  apply (no_resources_is_skipped service (Scenario.mkAws None false None)
           Scenario.forwarder).
  reflexivity.
Defined.

(** ** The loop over the log groups *)

Lemma admissible_iff (service : Service) (aws : Aws) (name : string)
    (resource : JsValue) :
  admissible service aws (name, resource) = true
  <-> exists logGroupName,
        lambdaLogGroupName resource = Returned (Some logGroupName)
        /\ forall st,
             fst (canSubscribeLogGroup aws logGroupName
                    (expectedSubName service aws
                       (name ++ "Subscription")%string)
                    st)
             = Returned true.
Proof.
  unfold admissible; simpl. split.
  - destruct (lambdaLogGroupName resource) as [[n|]|e]; try discriminate.
    intros H. exists n. split; [reflexivity|]. intros st.
    now rewrite canSubscribeLogGroup_run, H.
  - intros (n & -> & H).
    specialize (H {| resources := []; errors := []; requests := [] |}).
    rewrite canSubscribeLogGroup_run in H. now injection H.
Qed.

(** C9.  For every log group resource [name] that the loop scans, the
    prefix handed to [canSubscribeLogGroup] is
    [<stackName>-<name>Subscription-] whenever the stack name is available
    (defined and not empty), also when the service name and the stage are
    available too, and [<serviceName>-<stage>-<name>Subscription-]
    otherwise. *)
Theorem expected_prefix_forms (service : Service) (aws : Aws)
    (functionArn : ForwarderArn) (name : string) (resource : JsValue)
    (logGroupName : string) :
  lambdaLogGroupName resource = Returned (Some logGroupName) ->
  let expected :=
    expectedSubName service aws (name ++ "Subscription")%string in
  (forall st,
      loopBody service aws functionArn (name, resource) st
      = (canSub <- canSubscribeLogGroup aws logGroupName expected ;;
         if negb canSub
         then errors_push (quotaWarning logGroupName)
         else resources_set (name ++ "Subscription")%string
                (subscription name functionArn)) st)
  /\ (forall stackName,
         getStackName aws = Some stackName -> stackName <> ""%string ->
         expected = (stackName ++ "-" ++ name ++ "Subscription-")%string)
  /\ (getStackName aws = None \/ getStackName aws = Some ""%string ->
      expected
      = (getServiceName service ++ "-" ++ getStage aws ++ "-"
         ++ name ++ "Subscription-")%string).
Proof.
  intros Hscan expected. split; [|split].
  - intros st. unfold loopBody, bind, lift.
    unfold lambdaLogGroupName in Hscan.
    destruct (isLogGroup resource) as [[|]|e]; try discriminate. simpl.
    destruct (get resource "Properties") as [properties|e];
      [|discriminate].
    destruct (get properties "LogGroupName") as [[| | |s|]|e];
      try discriminate.
    destruct (String.prefix "/aws/lambda/" s); [|discriminate].
    now injection Hscan as ->.
  - intros stackName Hstack Hne. unfold expected, expectedSubName.
    rewrite Hstack. unfold truthy.
    destruct (String.eqb_spec stackName ""); [contradiction|]. simpl.
    now rewrite append_assoc.
  - intros H. unfold expected, expectedSubName.
    destruct H as [-> | ->]; simpl; now rewrite append_assoc.
Qed.

Lemma expected_prefix_forms_witness :
  expectedSubName (Scenario.mkService Scenario.template)
    (Scenario.mkAws (Some []) true (Some "stack"%string))
    "FuncLogGroupSubscription"
  = "stack-FuncLogGroupSubscription-"%string
  /\ expectedSubName (Scenario.mkService Scenario.template)
       (Scenario.mkAws (Some []) true None) "FuncLogGroupSubscription"
     = "my-service-dev-FuncLogGroupSubscription-"%string.
Proof.
  split.
  - destruct (expected_prefix_forms (Scenario.mkService Scenario.template)
                (Scenario.mkAws (Some []) true (Some "stack"%string))
                Scenario.forwarder "FuncLogGroup"
                (Scenario.logGroup "/aws/lambda/my-service-dev-func")
                "/aws/lambda/my-service-dev-func")
      as (_ & H & _); [reflexivity|].
    apply (H "stack"%string); [reflexivity | discriminate].
  - destruct (expected_prefix_forms (Scenario.mkService Scenario.template)
                (Scenario.mkAws (Some []) true None)
                Scenario.forwarder "FuncLogGroup"
                (Scenario.logGroup "/aws/lambda/my-service-dev-func")
                "/aws/lambda/my-service-dev-func")
      as (_ & _ & H); [reflexivity|].
    apply H. now left.
Defined.

(** C5.  For every admissible log group resource [name] (a function-managed
    log group that passes the quota check), the iteration of the loop for it
    assigns to [<name>Subscription] a [AWS::Logs::SubscriptionFilter]
    resource whose [FilterPattern] is the empty string, whose
    [DestinationArn] is the forwarder target as the caller gave it (the
    string, or the object with its properties as they are) and whose
    [LogGroupName] is [{ Ref: name }]; it has no other property.  The
    assignment is made in any state, so whatever the template held under
    that name is overwritten; and when the run returns, the template still
    holds that resource there. *)
Theorem subscription_written (service : Service) (aws : Aws)
    (functionArn : ForwarderArn) (name : string) (resource : JsValue) :
  admissible service aws (name, resource) = true ->
  let written := subscription name functionArn in
  (forall st,
      exists st',
        loopBody service aws functionArn (name, resource) st
        = (Returned tt, st')
        /\ lookup (name ++ "Subscription")%string (resources st')
           = Some written
        /\ forall k,
             k <> (name ++ "Subscription")%string ->
             lookup k (resources st') = lookup k (resources st))
  /\ (forall rs warnings,
         service_Resources service = Some rs ->
         In (name, resource) rs ->
         outcome (addCloudWatchForwarderSubscriptions service aws functionArn)
         = Returned warnings ->
         exists rs',
           service_Resources
             (service_after
                (addCloudWatchForwarderSubscriptions service aws functionArn))
           = Some rs'
           /\ lookup (name ++ "Subscription")%string rs' = Some written)
  /\ get written "Type" = Returned (JsString "AWS::Logs::SubscriptionFilter")
  /\ exists properties,
       get written "Properties" = Returned properties
       /\ get properties "FilterPattern" = Returned (JsString "")
       /\ get properties "DestinationArn"
          = Returned (match functionArn with
                      | ArnString arn => JsString arn
                      | ArnObject object => JsObject object
                      end)
       /\ get properties "LogGroupName"
          = Returned (JsObject [("Ref"%string, JsString name)])
       /\ written
          = JsObject
              [("Type"%string, JsString "AWS::Logs::SubscriptionFilter");
               ("Properties"%string, properties)]
       /\ properties
          = JsObject
              [("DestinationArn"%string,
                match functionArn with
                | ArnString arn => JsString arn
                | ArnObject object => JsObject object
                end);
               ("FilterPattern"%string, JsString "");
               ("LogGroupName"%string,
                JsObject [("Ref"%string, JsString name)])].
Proof.
  intros Hadm written.
  split; [|split; [|split]].
  - intros st. rewrite loopBody_run. unfold step. rewrite Hadm.
    unfold admissible in Hadm. simpl fst in *. simpl snd in *.
    destruct (lambdaLogGroupName resource) as [[n|]|e]; try discriminate.
    eexists. split; [reflexivity|]. simpl. split.
    + apply lookup_set_same.
    + intros k Hk. now apply lookup_set_other.
  - intros rs warnings Hrs Hin Hret.
    destruct (run_Returned _ _ _ _ Hrs _ Hret) as [Hval Hty].
    rewrite (run_passes _ _ _ _ Hrs Hval Hty). simpl.
    eexists. split; [now apply (service_Resources_with _ rs)|].
    now apply (lookup_apply_admissible _ _ _ name resource).
  - reflexivity.
  - eexists. repeat split.
Qed.

Lemma subscription_written_witness :
  let run :=
    addCloudWatchForwarderSubscriptions
      (Scenario.mkService Scenario.template)
      (Scenario.mkAws (Some []) true None)
      (ArnString "arn:aws:lambda:forwarder") in
  exists rs',
    service_Resources (service_after run) = Some rs'
    /\ lookup "FuncLogGroupSubscription" rs'
       = Some
           (JsObject
              [("Type"%string, JsString "AWS::Logs::SubscriptionFilter");
               ("Properties"%string,
                JsObject
                  [("DestinationArn"%string,
                    JsString "arn:aws:lambda:forwarder");
                   ("FilterPattern"%string, JsString "");
                   ("LogGroupName"%string,
                    JsObject [("Ref"%string, JsString "FuncLogGroup")])])]).
Proof.
  intros run.
  destruct (subscription_written (Scenario.mkService Scenario.template)
              (Scenario.mkAws (Some []) true None)
              (ArnString "arn:aws:lambda:forwarder") "FuncLogGroup"
              (Scenario.logGroup "/aws/lambda/my-service-dev-func"))
    as (_ & H & _); [reflexivity|].
  destruct (H Scenario.template [])
    as (rs' & Hrs' & Hlookup); [reflexivity | now left | reflexivity |].
  exists rs'. split; [exact Hrs' | exact Hlookup].
Defined.

Lemma lookup_apply_cases (service : Service) (aws : Aws)
    (functionArn : ForwarderArn) (k : string)
    (entries : list (string * JsValue)) (rs : Resources) :
  lookup k (applySubscriptions service aws functionArn entries rs)
  = lookup k rs
  \/ exists name resource,
       In (name, resource) entries
       /\ admissible service aws (name, resource) = true
       /\ k = (name ++ "Subscription")%string.
Proof.
  revert rs; induction entries as [|[n r] entries IH]; intros rs;
    [now left|].
  rewrite apply_cons.
  destruct (admissible service aws (n, r)) eqn:E; simpl.
  - destruct (IH (set (n ++ "Subscription")%string
                    (subscription n functionArn) rs))
      as [H|(n' & r' & Hin & Ha & Hk)].
    + destruct (String.eqb_spec k (n ++ "Subscription")) as [->|Hne].
      * right. exists n, r. split; [now left | now split].
      * left. now rewrite H, lookup_set_other.
    + right. exists n', r'. repeat split; auto; now right.
  - destruct (IH rs) as [H|(n' & r' & Hin & Ha & Hk)]; [now left|].
    right. exists n', r'. repeat split; auto; now right.
Qed.

Lemma In_entryWarnings (service : Service) (aws : Aws) (w : string)
    (rs : Resources) :
  In w (flat_map (entryWarnings service aws) rs) ->
  exists name resource logGroupName,
    In (name, resource) rs
    /\ lambdaLogGroupName resource = Returned (Some logGroupName)
    /\ canSubscribe aws logGroupName
         (expectedSubName service aws (name ++ "Subscription")%string)
       = false
    /\ w = quotaWarning logGroupName.
Proof.
  intros H. apply in_flat_map in H as ([name resource] & Hin & Hw).
  unfold entryWarnings in Hw. simpl in Hw.
  destruct (lambdaLogGroupName resource) as [[n|]|e] eqn:Hscan;
    try contradiction.
  destruct (canSubscribe aws n _) eqn:Hcan; [contradiction|].
  destruct Hw as [<-|[]]. exists name, resource, n. auto.
Qed.

(** C10.  In every run that returns, a name of the template whose resource
    differs from before, or is new, is [<name>Subscription] for an entry
    [name] of the original template that is a [AWS::Logs::LogGroup] whose
    [LogGroupName] starts with [/aws/lambda/] and that passed the quota
    check; it now holds the subscription.  No name is removed and the
    original names keep their order.  A resource of any kind that was stored
    under such a derived name is replaced, and nothing is reported for it:
    every warning returned is the note about skipped validation or the quota
    warning of a log group that failed the check. *)
Theorem only_subscriptions_written (service : Service) (aws : Aws)
    (functionArn : ForwarderArn) (rs : Resources) (warnings : list string) :
  service_Resources service = Some rs ->
  outcome (addCloudWatchForwarderSubscriptions service aws functionArn)
  = Returned warnings ->
  exists rs',
    service_after (addCloudWatchForwarderSubscriptions service aws functionArn)
    = with_Resources service rs'
    /\ service_Resources (with_Resources service rs') = Some rs'
    /\ (forall k,
           lookup k rs' <> lookup k rs ->
           exists name resource logGroupName,
             In (name, resource) rs
             /\ k = (name ++ "Subscription")%string
             /\ isLogGroup resource = Returned true
             /\ lambdaLogGroupName resource = Returned (Some logGroupName)
             /\ String.prefix "/aws/lambda/" logGroupName = true
             /\ (forall st,
                    fst (canSubscribeLogGroup aws logGroupName
                           (expectedSubName service aws k) st)
                    = Returned true)
             /\ lookup k rs' = Some (subscription name functionArn))
    /\ (exists added, keys rs' = keys rs ++ added)
    /\ (forall k, lookup k rs <> None -> lookup k rs' <> None)
    /\ (forall name resource previous,
           In (name, resource) rs ->
           admissible service aws (name, resource) = true ->
           lookup (name ++ "Subscription")%string rs = Some previous ->
           lookup (name ++ "Subscription")%string rs'
           = Some (subscription name functionArn))
    /\ (forall w,
           In w warnings ->
           w = skipValidationWarning
           \/ exists name resource logGroupName,
                In (name, resource) rs
                /\ lambdaLogGroupName resource = Returned (Some logGroupName)
                /\ admissible service aws (name, resource) = false
                /\ w = quotaWarning logGroupName).
Proof.
  intros Hrs Hret.
  destruct (run_Returned _ _ _ _ Hrs _ Hret) as [Hval Hty].
  rewrite (run_passes _ _ _ _ Hrs Hval Hty) in Hret |- *.
  simpl in Hret |- *. injection Hret as <-.
  exists (applySubscriptions service aws functionArn rs rs).
  split; [reflexivity|].
  split; [now apply (service_Resources_with _ rs)|].
  split; [|split; [|split; [|split]]].
  - intros k Hk.
    destruct (lookup_apply_cases service aws functionArn k rs rs)
      as [H|(name & resource & Hin & Hadm & ->)]; [contradiction|].
    pose proof Hadm as Hadm'.
    apply admissible_iff in Hadm' as (n & Hscan & Hcan).
    exists name, resource, n. repeat split; auto.
    + unfold lambdaLogGroupName in Hscan.
      destruct (isLogGroup resource) as [[|]|e]; congruence.
    + unfold lambdaLogGroupName in Hscan.
      destruct (isLogGroup resource) as [[|]|e]; try discriminate.
      destruct (get resource "Properties") as [p|e]; [|discriminate].
      destruct (get p "LogGroupName") as [[| | |s|]|e]; try discriminate.
      destruct (String.prefix "/aws/lambda/" s) eqn:E; [|discriminate].
      now injection Hscan as <-.
    + now apply (lookup_apply_admissible _ _ _ name resource).
  - apply keys_apply.
  - intros k. apply lookup_apply_Some.
  - intros name resource previous Hin Hadm _.
    now apply (lookup_apply_admissible _ _ _ name resource).
  - intros w Hw. apply in_app_or in Hw as [Hw|Hw].
    + left. unfold validationWarnings in Hw.
      destruct (typeof_not_string functionArn); [|contradiction].
      now destruct Hw as [<-|[]].
    + right. apply In_entryWarnings in Hw
        as (name & resource & n & Hin & Hscan & Hcan & ->).
      exists name, resource, n. repeat split; auto.
      unfold admissible. simpl. now rewrite Hscan.
Qed.

Lemma only_subscriptions_written_witness :
  let service :=
    Scenario.mkService
      (Scenario.template
       ++ [("FuncLogGroupSubscription"%string, JsString "previous")]) in
  let run :=
    addCloudWatchForwarderSubscriptions service
      (Scenario.mkAws (Some []) true None) Scenario.forwarder in
  exists rs',
    service_after run = with_Resources service rs'
    /\ lookup "FuncLogGroupSubscription" rs'
       = Some (subscription "FuncLogGroup" Scenario.forwarder).
Proof.
  intros service run.
  destruct (only_subscriptions_written service
              (Scenario.mkAws (Some []) true None) Scenario.forwarder
              (Scenario.template
               ++ [("FuncLogGroupSubscription"%string, JsString "previous")])
              [])
    as (rs' & Hafter & _ & _ & _ & _ & Hover & _);
    try reflexivity.
  exists rs'. split; [exact Hafter|].
  apply (Hover "FuncLogGroup"%string
           (Scenario.logGroup "/aws/lambda/my-service-dev-func")
           (JsString "previous")); try reflexivity.
  now left.
Defined.

Lemma append_inj_r (p s t : string) :
  (p ++ s)%string = (p ++ t)%string -> s = t.
Proof. induction p as [|c p IH]; simpl; [auto | intros [= H]; auto]. Qed.

Lemma quotaWarning_inj (n m : string) :
  quotaWarning n = quotaWarning m -> n = m.
Proof.
  unfold quotaWarning. intros H.
  apply append_inj_r in H. now apply append_inj_l in H.
Qed.

Lemma quotaWarning_not_skip (n : string) :
  quotaWarning n <> skipValidationWarning.
Proof. discriminate. Qed.

Lemma skip_not_In_entryWarnings (service : Service) (aws : Aws)
    (rs : Resources) :
  ~ In skipValidationWarning (flat_map (entryWarnings service aws) rs).
Proof.
  intros H. apply In_entryWarnings in H as (_ & _ & n & _ & _ & _ & H).
  symmetry in H. now apply quotaWarning_not_skip in H.
Qed.

Lemma getFunction_not_In_entryRequests (fn : ForwarderArn) (rs : Resources) :
  ~ In (Lambda_getFunction fn) (flat_map entryRequests rs).
Proof.
  intros H. apply in_flat_map in H as ([name resource] & _ & H).
  unfold entryRequests in H.
  destruct (lambdaLogGroupName (snd (name, resource))) as [[n|]|e];
    try contradiction.
  destruct H as [H|[]]. discriminate.
Qed.

Lemma In_entryRequests (name : string) (resource : JsValue)
    (logGroupName : string) (rs : Resources) :
  In (name, resource) rs ->
  lambdaLogGroupName resource = Returned (Some logGroupName) ->
  In (CloudWatchLogs_describeSubscriptionFilters logGroupName)
     (flat_map entryRequests rs).
Proof.
  intros Hin Hscan. apply in_flat_map. exists (name, resource).
  split; [exact Hin|]. unfold entryRequests. simpl. rewrite Hscan. now left.
Qed.

(** One element that alone contributes [w], once, makes [w] occur once. *)
Lemma count_occ_flat_map_one {A : Type} (f : A -> list string) (l : list A)
    (x : A) (w : string) :
  NoDup l -> In x l -> f x = [w] ->
  (forall y, In y l -> In w (f y) -> y = x) ->
  count_occ string_dec (flat_map f l) w = 1.
Proof.
  induction l as [|a l IH]; intros Hnd Hin Hfx Honly; [contradiction|].
  inversion Hnd as [|? ? Hnotin Hnd']; subst.
  simpl. rewrite count_occ_app.
  destruct Hin as [->|Hin].
  - rewrite Hfx. simpl. destruct (string_dec w w); [|contradiction].
    assert (H0 : count_occ string_dec (flat_map f l) w = 0).
    { apply count_occ_not_In. intros H.
      apply in_flat_map in H as (y & Hy & Hw).
      assert (y = x) by (apply Honly; [now right | exact Hw]).
      subst y. contradiction. }
    now rewrite H0.
  - assert (H0 : count_occ string_dec (f a) w = 0).
    { apply count_occ_not_In. intros H.
      assert (a = x) by (apply Honly; [now left | exact H]).
      subst a. contradiction. }
    rewrite H0. simpl. apply IH; auto.
    intros y Hy. apply Honly. now right.
Qed.

(** C6, as the code has it.  For every template with a resource section in
    which no resource is [null] or [undefined] and every resource tagged
    [AWS::Logs::LogGroup] has a string [Properties.LogGroupName] (the shape
    the type guard of [isLogGroup] declares), and every forwarder target that
    is not a string, the call returns: its warnings hold the note about
    skipped validation exactly once, no [getFunction] request is sent, and
    every admissible log group has its subscription in the template. *)
Theorem expression_target_bypasses_validation (service : Service)
    (aws : Aws) (o : CloudFormationObjectArn) (rs : Resources) :
  service_Resources service = Some rs ->
  wellTyped rs = true ->
  let run := addCloudWatchForwarderSubscriptions service aws (ArnObject o) in
  exists warnings rs',
    outcome run = Returned warnings
    /\ count_occ string_dec warnings skipValidationWarning = 1
    /\ (forall fn, ~ In (Lambda_getFunction fn) (requests_sent run))
    /\ service_Resources (service_after run) = Some rs'
    /\ forall name resource,
         In (name, resource) rs ->
         admissible service aws (name, resource) = true ->
         lookup (name ++ "Subscription")%string rs'
         = Some (subscription name (ArnObject o)).
Proof.
  intros Hrs Hty run. unfold run.
  rewrite (run_passes service aws (ArnObject o) rs Hrs eq_refl Hty). simpl.
  do 2 eexists. split; [reflexivity|].
  split; [|split; [|split]].
  - rewrite count_occ_cons_eq by reflexivity.
    f_equal. apply count_occ_not_In, skip_not_In_entryWarnings.
  - intros fn. apply getFunction_not_In_entryRequests.
  - now apply (service_Resources_with _ rs).
  - intros name resource Hin Hadm.
    now apply (lookup_apply_admissible _ _ _ name resource).
Qed.

Lemma expression_target_bypasses_validation_witness :
  let target : CloudFormationObjectArn :=
    [("Fn::Sub"%string, JsString "${forwarder}")] in
  let run :=
    addCloudWatchForwarderSubscriptions
      (Scenario.mkService Scenario.template)
      (Scenario.mkAws (Some []) false None) (ArnObject target) in
  exists warnings rs',
    outcome run = Returned warnings
    /\ count_occ string_dec warnings skipValidationWarning = 1
    /\ service_Resources (service_after run) = Some rs'
    /\ lookup "FuncLogGroupSubscription" rs'
       = Some (subscription "FuncLogGroup" (ArnObject target)).
Proof.
  intros target run.
  destruct (expression_target_bypasses_validation
              (Scenario.mkService Scenario.template)
              (Scenario.mkAws (Some []) false None) target Scenario.template)
    as (warnings & rs' & H1 & H2 & _ & H3 & H4); try reflexivity.
  exists warnings, rs'. repeat split; try assumption.
  apply (H4 "FuncLogGroup"%string
            (Scenario.logGroup "/aws/lambda/my-service-dev-func"));
    [now left | reflexivity].
Defined.

Lemma canSubscribe_over_quota (aws : Aws) (logGroupName expected : string)
    (subscriptionFilters : list SubscriptionFilter) :
  request_describeSubscriptionFilters aws logGroupName
  = Some subscriptionFilters ->
  2 <= length subscriptionFilters ->
  (forall f, In f subscriptionFilters ->
             String.prefix expected (filterName f) = false) ->
  canSubscribe aws logGroupName expected = false.
Proof.
  intros Hlive Hlen Hnone. unfold canSubscribe, liveFilters. rewrite Hlive.
  apply orb_false_iff. split.
  - destruct (existsb _ _) eqn:E; [|reflexivity].
    apply existsb_exists in E as (f & Hin & Hf).
    unfold matchesPrefix in Hf. rewrite (Hnone f Hin) in Hf. discriminate.
  - now apply Nat.ltb_ge.
Qed.

(** C4.  For every function-managed log group with at least two live
    filters, none of whose names starts with the expected prefix: the
    iteration for it returns in any state, leaves the template alone and
    adds exactly one warning, the one that names the log group; so the loop
    over a template that holds it is the loop over the entries before it,
    that warning, and the loop over the entries after it.  However the run
    ends, the template holds under [<name>Subscription] what it held before.
    In a run that returns, the warning is among those returned (once, when
    no other resource names the same log group), and every other log group
    was processed: its filters were listed, and it got its subscription or
    its own warning. *)
Theorem over_quota_is_skipped (service : Service) (aws : Aws)
    (functionArn : ForwarderArn) (name : string) (resource : JsValue)
    (logGroupName : string) (subscriptionFilters : list SubscriptionFilter) :
  lambdaLogGroupName resource = Returned (Some logGroupName) ->
  request_describeSubscriptionFilters aws logGroupName
  = Some subscriptionFilters ->
  2 <= length subscriptionFilters ->
  (forall f,
      In f subscriptionFilters ->
      String.prefix
        (expectedSubName service aws (name ++ "Subscription")%string)
        (filterName f)
      = false) ->
  let warned : M unit :=
    fun st =>
      (Returned tt,
       {| resources := resources st;
          errors := errors st ++ [quotaWarning logGroupName];
          requests :=
            requests st
            ++ [CloudWatchLogs_describeSubscriptionFilters logGroupName] |}) in
  let body := loopBody service aws functionArn in
  let run := addCloudWatchForwarderSubscriptions service aws functionArn in
  (forall st, body (name, resource) st = warned st)
  /\ (forall before after st,
         for_of (before ++ (name, resource) :: after) body st
         = (for_of before body ;; warned ;; for_of after body) st)
  /\ (forall rs,
         service_Resources service = Some rs ->
         NoDup (keys rs) ->
         In (name, resource) rs ->
         exists rs',
           service_Resources (service_after run) = Some rs'
           /\ lookup (name ++ "Subscription")%string rs'
              = lookup (name ++ "Subscription")%string rs)
  /\ forall rs warnings,
       service_Resources service = Some rs ->
       NoDup (keys rs) ->
       In (name, resource) rs ->
       outcome run = Returned warnings ->
       In (quotaWarning logGroupName) warnings
       /\ ((forall name' resource',
               In (name', resource') rs ->
               lambdaLogGroupName resource' = Returned (Some logGroupName) ->
               name' = name) ->
           count_occ string_dec warnings (quotaWarning logGroupName) = 1)
       /\ forall name' resource' logGroupName',
            In (name', resource') rs ->
            lambdaLogGroupName resource' = Returned (Some logGroupName') ->
            In (CloudWatchLogs_describeSubscriptionFilters logGroupName')
               (requests_sent run)
            /\ if admissible service aws (name', resource')
               then exists rs',
                      service_Resources (service_after run) = Some rs'
                      /\ lookup (name' ++ "Subscription")%string rs'
                         = Some (subscription name' functionArn)
               else In (quotaWarning logGroupName') warnings.
Proof.
  intros Hscan Hlive Hlen Hnone warned body run.
  pose proof (canSubscribe_over_quota _ _ _ _ Hlive Hlen Hnone) as Hcan.
  assert (Hadm : admissible service aws (name, resource) = false)
    by (unfold admissible; simpl; now rewrite Hscan).
  assert (Hwarn : entryWarnings service aws (name, resource)
                  = [quotaWarning logGroupName])
    by (unfold entryWarnings; simpl; now rewrite Hscan, Hcan).
  assert (Hstep : forall st, body (name, resource) st = warned st).
  { intros st. unfold body. rewrite loopBody_run. simpl snd. rewrite Hscan.
    unfold step. simpl snd. now rewrite Hscan, Hadm. }
  assert (Hother : forall entries rs0,
             NoDup (keys rs0) -> In (name, resource) rs0 ->
             incl entries rs0 ->
             lookup (name ++ "Subscription")%string
               (applySubscriptions service aws functionArn entries rs0)
             = lookup (name ++ "Subscription")%string rs0).
  { intros entries rs0 Hnd Hin Hincl.
    apply lookup_apply_other. intros n r Hin' Hadm' E.
    apply scoped_name_inj in E. subst n. apply Hincl in Hin'.
    assert (r = resource).
    { apply (In_lookup_NoDup _ _ _ Hnd) in Hin, Hin'. congruence. }
    subst r. congruence. }
  split; [exact Hstep|]. split; [|split].
  - intros before after st. unfold body in *. rewrite for_of_app.
    change (for_of ((name, resource) :: after) ?b)
      with (b (name, resource) ;; for_of after b).
    unfold bind.
    destruct (for_of before _ st) as [[u|e] st1]; [|reflexivity].
    now rewrite Hstep.
  - intros rs Hrs Hnd Hin.
    destruct (run_resources service aws functionArn rs Hrs)
      as (processed & rest & E & Hafter).
    fold run in Hafter. rewrite Hafter.
    eexists. split; [now apply (service_Resources_with _ rs)|].
    apply Hother; auto. rewrite E. now apply incl_appl, incl_refl.
  - intros rs warnings Hrs Hnd Hin Hret. unfold run in *.
    destruct (run_Returned _ _ _ _ Hrs _ Hret) as [Hval Hty].
    rewrite (run_passes _ _ _ _ Hrs Hval Hty) in Hret |- *.
    simpl in Hret |- *. injection Hret as <-.
    split; [|split].
    + apply in_or_app. right. apply in_flat_map.
      exists (name, resource). split; [exact Hin|]. rewrite Hwarn. now left.
    + intros Honly. rewrite count_occ_app.
      assert (H0 : count_occ string_dec (validationWarnings functionArn)
                     (quotaWarning logGroupName) = 0).
      { apply count_occ_not_In. unfold validationWarnings.
        destruct (typeof_not_string functionArn); [|tauto].
        intros [H|[]]. symmetry in H. now apply quotaWarning_not_skip in H. }
      rewrite H0. simpl.
      apply (count_occ_flat_map_one _ _ (name, resource)); auto.
      * now apply NoDup_map_inv in Hnd.
      * intros [n r] Hin' Hw. unfold entryWarnings in Hw. simpl in Hw.
        destruct (lambdaLogGroupName r) as [[l|]|e] eqn:Hscan';
          try contradiction.
        destruct (canSubscribe aws l _); [contradiction|].
        destruct Hw as [Hw|[]]. apply quotaWarning_inj in Hw. subst l.
        assert (n = name) by now apply (Honly n r).
        subst n. f_equal.
        apply (In_lookup_NoDup _ _ _ Hnd) in Hin, Hin'. congruence.
    + intros n r l Hin' Hscan'. split.
      * apply in_or_app. right. now apply (In_entryRequests n r).
      * destruct (admissible service aws (n, r)) eqn:Hadm'.
        -- eexists. split; [now apply (service_Resources_with _ rs)|].
           now apply (lookup_apply_admissible _ _ _ n r).
        -- apply in_or_app. right. apply in_flat_map.
           exists (n, r). split; [exact Hin'|].
           unfold entryWarnings, admissible in *. simpl in *.
           rewrite Hscan' in *. rewrite Hadm'. now left.
Qed.

Lemma over_quota_is_skipped_witness :
  let aws :=
    Scenario.mkAws (Some [Scenario.filter "other-a"; Scenario.filter "other-b"])
      true None in
  let run :=
    addCloudWatchForwarderSubscriptions
      (Scenario.mkService Scenario.template) aws Scenario.forwarder in
  (exists rs',
      service_Resources (service_after run) = Some rs'
      /\ lookup "FuncLogGroupSubscription" rs' = None)
  /\ count_occ string_dec
       [quotaWarning "/aws/lambda/my-service-dev-func"]
       (quotaWarning "/aws/lambda/my-service-dev-func")
     = 1.
Proof.
  intros aws run.
  destruct (over_quota_is_skipped (Scenario.mkService Scenario.template) aws
              Scenario.forwarder "FuncLogGroup"
              (Scenario.logGroup "/aws/lambda/my-service-dev-func")
              "/aws/lambda/my-service-dev-func"
              [Scenario.filter "other-a"; Scenario.filter "other-b"])
    as (_ & _ & Hkept & H).
  - reflexivity.
  - reflexivity.
  - simpl. lia.
  - intros f [<-|[<-|[]]]; reflexivity.
  - assert (Hnd : NoDup (keys Scenario.template))
      by (repeat constructor; simpl; tauto).
    split.
    + apply (Hkept Scenario.template); [reflexivity | exact Hnd | now left].
    + destruct (H Scenario.template
                  [quotaWarning "/aws/lambda/my-service-dev-func"])
        as (_ & Hone & _);
        [reflexivity | exact Hnd | now left | reflexivity |].
      apply Hone. intros n r [E|[]] _. now injection E.
Defined.

(** ** Running twice *)

Lemma In_apply_original (service : Service) (aws : Aws)
    (functionArn : ForwarderArn) (name : string) (resource : JsValue)
    (logGroupName : string) (rs : Resources) :
  In (name, resource) (applySubscriptions service aws functionArn rs rs) ->
  lambdaLogGroupName resource = Returned (Some logGroupName) ->
  In (name, resource) rs.
Proof.
  intros Hin Hscan.
  apply In_apply in Hin as [Hin|(n & r & _ & _ & _ & ->)]; [exact Hin|].
  rewrite subscription_not_logGroup in Hscan. discriminate.
Qed.

(** C3.  When a run returns, a second run on the service it left, against
    the same account, returns too and leaves the service, and so the
    template, exactly as the first run left it; the names of the template
    stay distinct.  Each warning of the second run is a note from before
    the loop or the quota warning of a log group that has at least two live filters
    of which none starts with the expected prefix, so a log group with a
    filter that matches gets none; and the second run warns of nothing the
    first did not. *)
Theorem second_run_changes_nothing (service : Service) (aws : Aws)
    (functionArn : ForwarderArn) (warnings1 : list string) :
  let run1 := addCloudWatchForwarderSubscriptions service aws functionArn in
  outcome run1 = Returned warnings1 ->
  let run2 :=
    addCloudWatchForwarderSubscriptions (service_after run1) aws functionArn in
  service_after run2 = service_after run1
  /\ (forall rs rs2,
         service_Resources service = Some rs -> NoDup (keys rs) ->
         service_Resources (service_after run2) = Some rs2 ->
         NoDup (keys rs2))
  /\ exists warnings2,
       outcome run2 = Returned warnings2
       /\ incl warnings2 warnings1
       /\ forall w,
            In w warnings2 ->
            w = noStackMessage \/ w = skipValidationWarning
            \/ exists rs1 name resource logGroupName,
                 service_Resources (service_after run1) = Some rs1
                 /\ In (name, resource) rs1
                 /\ lambdaLogGroupName resource = Returned (Some logGroupName)
                 /\ w = quotaWarning logGroupName
                 /\ forall st subscriptionFilters,
                      fst (describeSubscriptionFilters aws logGroupName st)
                      = Returned subscriptionFilters ->
                      2 <= length subscriptionFilters
                      /\ forall f,
                           In f subscriptionFilters ->
                           String.prefix
                             (expectedSubName service aws
                                (name ++ "Subscription")%string)
                             (filterName f)
                           = false.
Proof.
  intros run1 Hret run2. unfold run2, run1 in *. clear run1 run2.
  destruct (service_Resources service) as [rs|] eqn:Hrs.
  - destruct (run_Returned _ _ _ _ Hrs _ Hret) as [Hval Hty].
    rewrite (run_passes _ _ _ _ Hrs Hval Hty) in Hret |- *.
    cbn [outcome service_after requests_sent] in Hret |- *.
    injection Hret as <-.
    set (rs1 := applySubscriptions service aws functionArn rs rs).
    assert (Hrs1 : service_Resources (with_Resources service rs1) = Some rs1)
      by now apply (service_Resources_with _ rs).
    assert (Hty1 : wellTyped rs1 = true) by now apply wellTyped_apply.
    rewrite (run_passes _ _ _ _ Hrs1 Hval Hty1).
    cbn [outcome service_after requests_sent].
    change (applySubscriptions (with_Resources service rs1) aws functionArn)
      with (applySubscriptions service aws functionArn).
    change (entryWarnings (with_Resources service rs1) aws)
      with (entryWarnings service aws).
    assert (Hidem : applySubscriptions service aws functionArn rs1 rs1 = rs1)
      by apply apply_idempotent.
    rewrite !Hidem, !with_Resources_twice.
    split; [reflexivity|]. split.
    + intros rs0 rs2 [= <-] Hnd. rewrite Hrs1. intros [= <-].
      now apply NoDup_keys_apply.
    + eexists. split; [reflexivity|]. split.
      * intros w Hw. apply in_app_or in Hw as [Hw|Hw];
          apply in_or_app; [now left | right].
        apply In_entryWarnings in Hw
          as (name & resource & n & Hin & Hscan & Hcan & ->).
        apply in_flat_map. exists (name, resource). split.
        -- now apply (In_apply_original _ _ _ _ _ n) in Hin.
        -- unfold entryWarnings. simpl. rewrite Hscan, Hcan. now left.
      * intros w Hw. apply in_app_or in Hw as [Hw|Hw].
        -- right. left. unfold validationWarnings in Hw.
           destruct (typeof_not_string functionArn); [|contradiction].
           now destruct Hw as [<-|[]].
        -- right. right.
           apply In_entryWarnings in Hw
             as (name & resource & n & Hin & Hscan & Hcan & ->).
           exists rs1, name, resource, n. repeat split; auto.
           ++ rewrite describeSubscriptionFilters_run in H.
              injection H as <-.
              unfold canSubscribe in Hcan.
              apply orb_false_iff in Hcan as [_ Hcan].
              now apply Nat.ltb_ge in Hcan.
           ++ rewrite describeSubscriptionFilters_run in H.
              injection H as <-. intros f Hf.
              unfold canSubscribe in Hcan.
              apply orb_false_iff in Hcan as [Hcan _].
              destruct (String.prefix _ (filterName f)) eqn:E;
                [|reflexivity].
              assert (Hex : existsb
                              (matchesPrefix
                                 (expectedSubName service aws
                                    (name ++ "Subscription")%string))
                              (liveFilters aws n) = true)
                by (apply existsb_exists; now exists f).
              congruence.
  - unfold addCloudWatchForwarderSubscriptions in *. rewrite Hrs in *.
    simpl in *. rewrite Hrs. simpl. injection Hret as <-.
    split; [reflexivity|]. split; [discriminate|].
    eexists. split; [reflexivity|]. split; [apply incl_refl|].
    intros w [<-|[]]. now left.
Qed.

Lemma second_run_changes_nothing_witness :
  let aws :=
    Scenario.mkAws
      (Some [Scenario.filter "my-service-dev-FuncLogGroupSubscription-XYZ";
             Scenario.filter "other"])
      true None in
  let run1 :=
    addCloudWatchForwarderSubscriptions
      (Scenario.mkService Scenario.template) aws Scenario.forwarder in
  let run2 :=
    addCloudWatchForwarderSubscriptions (service_after run1) aws
      Scenario.forwarder in
  outcome run1 = Returned [] /\ service_after run2 = service_after run1.
Proof.
  intros aws run1 run2. split; [reflexivity|].
  apply (second_run_changes_nothing (Scenario.mkService Scenario.template)
           aws Scenario.forwarder []).
  reflexivity.
Defined.

(** C6 does not hold of every template.  A log group whose [LogGroupName]
    is a CloudFormation function is tagged [AWS::Logs::LogGroup], so the
    guard of the loop calls [startsWith] on an object: the call ends in a
    [TypeError] although the forwarder target is not a string, after the
    note about skipped validation was pushed and before any warning is
    returned. *)
Lemma expression_target_computed_log_group_throws :
  let service :=
    Scenario.mkService
      [("ComputedLogGroup"%string, Scenario.computedLogGroup)] in
  let run :=
    addCloudWatchForwarderSubscriptions service
      (Scenario.mkAws (Some []) true None)
      (ArnObject Scenario.forwarderExpression) in
  service_Resources service
  = Some [("ComputedLogGroup"%string, Scenario.computedLogGroup)]
  /\ typeof_not_string (ArnObject Scenario.forwarderExpression) = true
  /\ outcome run = Thrown TypeError
  /\ (forall warnings, outcome run <> Returned warnings)
  /\ wellTyped [("ComputedLogGroup"%string, Scenario.computedLogGroup)]
     = false.
Proof.
  repeat split. intros warnings. discriminate.
Qed.

(** * Further properties of forwarder.ts *)

(** ** Runs that do not return *)

Section Prefix.
Variables (service : Service) (aws : Aws) (functionArn : ForwarderArn).

(** However the loop ends, it has processed a well-typed prefix of the
    entries; it throws at the first entry that violates the type guard. *)
Lemma for_of_prefix (entries : list (string * JsValue)) (st st' : State)
    (o : Outcome unit) :
  for_of entries (loopBody service aws functionArn) st = (o, st') ->
  exists processed rest,
    entries = processed ++ rest
    /\ wellTyped processed = true
    /\ st' = fold_left (step service aws functionArn) processed st
    /\ match o with
       | Returned _ => rest = []
       | Thrown e =>
           e = TypeError
           /\ exists bad rest',
                rest = bad :: rest' /\ typeGuardHolds (snd bad) = false
       end.
Proof.
  revert st; induction entries as [|entry entries IH]; intros st H.
  - exists [], []. injection H as <- <-. now repeat split.
  - simpl in H. unfold bind in H. rewrite loopBody_run in H.
    destruct (lambdaLogGroupName (snd entry)) as [x|e] eqn:Hscan.
    + apply IH in H as (processed & rest & -> & Hty & -> & Ho).
      exists (entry :: processed), rest. repeat split; auto.
      simpl. rewrite Hty, andb_true_r. apply typeGuardHolds_scan. eauto.
    + injection H as <- <-. exists [], (entry :: entries).
      repeat split.
      * now apply lambdaLogGroupName_Thrown in Hscan.
      * exists entry, entries. split; [reflexivity|].
        destruct (typeGuardHolds (snd entry)) eqn:E; [|reflexivity].
        apply typeGuardHolds_scan in E as [x Hx]. congruence.
Qed.

Variable rs : Resources.
Hypothesis Hrs : service_Resources service = Some rs.

Local Abbreviation run :=
  (addCloudWatchForwarderSubscriptions service aws functionArn).

(** A run whose validation step passes, whatever its outcome. *)
Lemma run_prefix :
  validationPasses aws functionArn = true ->
  exists processed rest,
    rs = processed ++ rest
    /\ wellTyped processed = true
    /\ service_after run
       = with_Resources service
           (applySubscriptions service aws functionArn processed rs)
    /\ requests_sent run
       = validationRequests functionArn ++ flat_map entryRequests processed
    /\ ((rest = []
         /\ outcome run
            = Returned (validationWarnings functionArn
                        ++ flat_map (entryWarnings service aws) rs))
        \/ (outcome run = Thrown TypeError
            /\ exists bad rest',
                 rest = bad :: rest' /\ typeGuardHolds (snd bad) = false)).
Proof.
  intros Hval.
  unfold addCloudWatchForwarderSubscriptions. rewrite Hrs.
  unfold reconcile, bind. rewrite validation_run by exact Hval. simpl.
  destruct (for_of rs _ _) as [o st'] eqn:Hloop.
  apply for_of_prefix in Hloop as (processed & rest & E & Hty & -> & Ho).
  exists processed, rest. split; [exact E|]. split; [exact Hty|].
  destruct o as [u|e]; cbn [outcome service_after requests_sent].
  - rewrite resources_fold, requests_fold, errors_fold. simpl.
    subst rest. rewrite app_nil_r in E. subst processed.
    repeat split. now left.
  - rewrite resources_fold, requests_fold. simpl.
    destruct Ho as [-> Hbad]. repeat split. now right.
Qed.
End Prefix.

Lemma validationPasses_false (aws : Aws) (functionArn : ForwarderArn) :
  validationPasses aws functionArn = false
  <-> exists s, functionArn = ArnString s
                /\ request_getFunction aws functionArn = None.
Proof.
  unfold validationPasses. destruct functionArn as [s|o]; simpl.
  - destruct (request_getFunction aws (ArnString s)).
    + split; [discriminate | intros (s' & _ & H); discriminate].
    + split; [eauto | reflexivity].
  - split; [discriminate | intros (s' & H & _); discriminate].
Qed.

Lemma wellTyped_false (rs : Resources) :
  wellTyped rs = false
  <-> exists name resource,
        In (name, resource) rs /\ typeGuardHolds resource = false.
Proof.
  unfold wellTyped. induction rs as [|[n r] rs IH]; simpl.
  - split; [discriminate | intros (? & ? & [] & _)].
  - rewrite andb_false_iff, IH. split.
    + intros [H|(n' & r' & Hin & H)]; eauto 6.
    + intros (n' & r' & [E|Hin] & H).
      * injection E as -> ->. now left.
      * right. eauto.
Qed.

Lemma In_lookup_Some {V : Type} (k : string) (v : V)
    (o : list (string * V)) :
  In (k, v) o -> lookup k o <> None.
Proof.
  intros Hin H. apply lookup_None_keys in H. apply H.
  now apply (in_map fst) in Hin.
Qed.

(** Closes the goals that compare two outcomes. *)
Ltac settle_outcome :=
  repeat match goal with
    | H : exists _, _ |- _ => destruct H
    | H : _ /\ _ |- _ => destruct H
    | H : Thrown _ = Thrown _ |- _ => injection H as <-
    end;
  try discriminate; try tauto;
  try solve [eauto | left; reflexivity | right; eauto].

(** X1.  With a resource section the call ends in exactly one of three
    ways.  It throws [DatadogForwarderNotFoundError] exactly when the target
    is a string for which [getFunction] is rejected; otherwise it throws a
    [TypeError] exactly when some resource violates the type guard, and
    returns exactly when none does.  No other exception leaves it. *)
Theorem run_outcome_conditions (service : Service) (aws : Aws)
    (functionArn : ForwarderArn) (rs : Resources) :
  service_Resources service = Some rs ->
  let run := addCloudWatchForwarderSubscriptions service aws functionArn in
  let rejected :=
    exists s, functionArn = ArnString s
              /\ request_getFunction aws functionArn = None in
  let violated :=
    exists name resource,
      In (name, resource) rs /\ typeGuardHolds resource = false in
  (rejected
   <-> outcome run
       = Thrown (DatadogForwarderNotFoundError
                   ("Could not perform GetFunction on "
                    ++ arnToString functionArn ++ ".")%string))
  /\ (~ rejected /\ violated <-> outcome run = Thrown TypeError)
  /\ (~ rejected /\ ~ violated
      <-> exists warnings, outcome run = Returned warnings)
  /\ forall e,
       outcome run = Thrown e ->
       e = TypeError
       \/ exists message, e = DatadogForwarderNotFoundError message.
Proof.
  intros Hrs run rejected violated. unfold run.
  destruct (validationPasses aws functionArn) eqn:Hval.
  - assert (Hnot : ~ rejected).
    { intros H. apply validationPasses_false in H. congruence. }
    destruct (run_prefix service aws functionArn rs Hrs Hval)
      as (processed & rest & E & Hty & _ & _ & Hout).
    destruct Hout as [[-> Hout]|[Hout (bad & rest' & -> & Hbad)]];
      rewrite Hout.
    + rewrite app_nil_r in E. subst processed.
      assert (Hnv : ~ violated).
      { intros H. apply wellTyped_false in H. congruence. }
      repeat split; intros; settle_outcome.
    + assert (Hv : violated).
      { destruct bad as [n r]. exists n, r. split; [|exact Hbad].
        rewrite E. apply in_or_app. right. now left. }
      repeat split; intros; settle_outcome.
  - assert (Hrej : rejected) by now apply validationPasses_false.
    rewrite (run_validation_fails _ _ _ _ Hrs Hval). simpl.
    repeat split; intros; settle_outcome.
Qed.

Lemma run_outcome_conditions_witness :
  outcome
    (addCloudWatchForwarderSubscriptions
       (Scenario.mkService
          [("ComputedLogGroup"%string, Scenario.computedLogGroup)])
       (Scenario.mkAws (Some []) true None) Scenario.forwarder)
  = Thrown TypeError.
Proof.
  destruct (run_outcome_conditions
              (Scenario.mkService
                 [("ComputedLogGroup"%string, Scenario.computedLogGroup)])
              (Scenario.mkAws (Some []) true None) Scenario.forwarder
              [("ComputedLogGroup"%string, Scenario.computedLogGroup)])
    as (_ & H & _); [reflexivity|].
  apply H. split.
  - intros (s & _ & Hnone). discriminate.
  - exists "ComputedLogGroup"%string, Scenario.computedLogGroup.
    split; [now left | reflexivity].
Defined.

Lemma In_entryRequests_inv (logGroupName : string) (rs : Resources) :
  In (CloudWatchLogs_describeSubscriptionFilters logGroupName)
     (flat_map entryRequests rs) ->
  exists name resource,
    In (name, resource) rs
    /\ lambdaLogGroupName resource = Returned (Some logGroupName).
Proof.
  intros H. apply in_flat_map in H as ([name resource] & Hin & H).
  unfold entryRequests in H. simpl in H.
  destruct (lambdaLogGroupName resource) as [[n|]|e] eqn:Hscan;
    try contradiction.
  destruct H as [[= <-]|[]]. eauto.
Qed.

Lemma lambdaLogGroupName_prefix (resource : JsValue) (logGroupName : string) :
  lambdaLogGroupName resource = Returned (Some logGroupName) ->
  String.prefix "/aws/lambda/" logGroupName = true.
Proof.
  unfold lambdaLogGroupName.
  destruct (isLogGroup resource) as [[|]|e]; try discriminate.
  destruct (get resource "Properties") as [p|e]; [|discriminate].
  destruct (get p "LogGroupName") as [[| | |s|]|e]; try discriminate.
  destruct (String.prefix "/aws/lambda/" s) eqn:E; [|discriminate].
  now intros [= <-].
Qed.

(** X2.  The requests of a call follow the template.  [getFunction] is
    sent at most once, first, and only for a string target; after it comes
    one [describeSubscriptionFilters] for each function-managed log group
    among the entries the loop got through, in template order, and none
    for any other resource.  A call that returns got through all entries;
    every log group name asked about starts with [/aws/lambda/]. *)
Theorem requests_follow_template (service : Service) (aws : Aws)
    (functionArn : ForwarderArn) (rs : Resources) :
  service_Resources service = Some rs ->
  let run := addCloudWatchForwarderSubscriptions service aws functionArn in
  exists processed rest,
    rs = processed ++ rest
    /\ requests_sent run
       = (if typeof_not_string functionArn then []
          else [Lambda_getFunction functionArn])
         ++ flat_map entryRequests processed
    /\ ((exists warnings, outcome run = Returned warnings) -> rest = [])
    /\ (forall m,
           outcome run = Thrown (DatadogForwarderNotFoundError m) ->
           processed = [])
    /\ forall logGroupName,
         In (CloudWatchLogs_describeSubscriptionFilters logGroupName)
            (requests_sent run) ->
         String.prefix "/aws/lambda/" logGroupName = true
         /\ exists name resource,
              In (name, resource) rs
              /\ lambdaLogGroupName resource = Returned (Some logGroupName).
Proof.
  intros Hrs run. unfold run.
  destruct (validationPasses aws functionArn) eqn:Hval.
  - destruct (run_prefix service aws functionArn rs Hrs Hval)
      as (processed & rest & E & _ & _ & Hreq & Hout).
    exists processed, rest. rewrite Hreq.
    split; [exact E|]. split; [reflexivity|].
    split; [|split].
    + destruct Hout as [[-> _]|[Hout _]]; [reflexivity|].
      rewrite Hout. intros [w Hw]. discriminate.
    + destruct Hout as [[_ Hout]|[Hout _]]; rewrite Hout; discriminate.
    + intros n Hn. apply in_app_or in Hn as [Hn|Hn].
      * unfold validationRequests in Hn.
        destruct (typeof_not_string functionArn); [contradiction|].
        destruct Hn as [Hn|[]]. discriminate.
      * apply In_entryRequests_inv in Hn as (name & resource & Hin & Hscan).
        split; [now apply (lambdaLogGroupName_prefix resource)|].
        exists name, resource. split; [|exact Hscan].
        rewrite E. apply in_or_app. now left.
  - rewrite (run_validation_fails _ _ _ _ Hrs Hval). simpl.
    exists [], rs. split; [reflexivity|].
    unfold validationPasses in Hval. apply orb_false_iff in Hval as [-> _].
    split; [reflexivity|]. split; [|split].
    + intros [w Hw]. discriminate.
    + reflexivity.
    + intros n [Hn|[]]. discriminate.
Qed.

Lemma requests_follow_template_witness :
  let rs :=
    Scenario.template
    ++ [("Bucket"%string,
         JsObject [("Type"%string, JsString "AWS::S3::Bucket")])] in
  requests_sent
    (addCloudWatchForwarderSubscriptions (Scenario.mkService rs)
       (Scenario.mkAws (Some []) true None) Scenario.forwarder)
  = [Lambda_getFunction Scenario.forwarder;
     CloudWatchLogs_describeSubscriptionFilters
       "/aws/lambda/my-service-dev-func"].
Proof.
  intros rs.
  destruct (requests_follow_template (Scenario.mkService rs)
              (Scenario.mkAws (Some []) true None) Scenario.forwarder rs)
    as (processed & rest & E & Hreq & Hret & _); [reflexivity|].
  rewrite Hreq.
  assert (Hrest : rest = []) by (apply Hret; eexists; reflexivity).
  subst rest. rewrite app_nil_r in E. now subst processed.
Defined.

(** X3.  However a call ends, the template only grows.  Every name of the
    original template is still there, in the same position; each name holds
    the resource it held, unless it is [<name>Subscription] for an
    admissible entry of the original template, in which case it holds that
    subscription; distinct names stay distinct; and the service name is
    untouched. *)
Theorem template_only_grows (service : Service) (aws : Aws)
    (functionArn : ForwarderArn) (rs : Resources) :
  service_Resources service = Some rs ->
  let run := addCloudWatchForwarderSubscriptions service aws functionArn in
  exists rs',
    service_Resources (service_after run) = Some rs'
    /\ getServiceName (service_after run) = getServiceName service
    /\ (exists added, keys rs' = keys rs ++ added)
    /\ (NoDup (keys rs) -> NoDup (keys rs'))
    /\ forall k,
         lookup k rs' = lookup k rs
         \/ exists name resource,
              In (name, resource) rs
              /\ admissible service aws (name, resource) = true
              /\ k = (name ++ "Subscription")%string
              /\ lookup k rs' = Some (subscription name functionArn).
Proof.
  intros Hrs run. unfold run.
  destruct (run_resources service aws functionArn rs Hrs)
    as (processed & rest & E & Hafter).
  rewrite Hafter.
  exists (applySubscriptions service aws functionArn processed rs).
  split; [now apply (service_Resources_with _ rs)|].
  split; [reflexivity|].
  split; [apply keys_apply|].
  split; [apply NoDup_keys_apply|].
  intros k.
  destruct (lookup_apply_cases service aws functionArn k processed rs)
    as [H|(name & resource & Hin & Hadm & ->)]; [now left|].
  right. exists name, resource. repeat split; auto.
  - rewrite E. apply in_or_app. now left.
  - now apply (lookup_apply_admissible _ _ _ name resource).
Qed.

Lemma template_only_grows_witness :
  exists rs',
    service_Resources
      (service_after
         (addCloudWatchForwarderSubscriptions
            (Scenario.mkService
               (Scenario.template
                ++ [("Bad"%string, Scenario.computedLogGroup)]))
            (Scenario.mkAws (Some []) true None) Scenario.forwarder))
    = Some rs'
    /\ exists added,
         keys rs' = ["FuncLogGroup"%string; "Bad"%string] ++ added.
Proof.
  destruct (template_only_grows
              (Scenario.mkService
                 (Scenario.template
                  ++ [("Bad"%string, Scenario.computedLogGroup)]))
              (Scenario.mkAws (Some []) true None) Scenario.forwarder
              (Scenario.template
               ++ [("Bad"%string, Scenario.computedLogGroup)]))
    as (rs' & Hrs' & _ & Hkeys & _); [reflexivity|].
  exists rs'. split; [exact Hrs' | exact Hkeys].
Defined.

(** X4.  A call that ends in a [TypeError] is not undone.  It stopped at the
    first resource that violates the type guard: the entries before that
    one were processed, so each admissible one of them has its subscription
    in the template the call leaves behind, and the filters of no log group
    after it were listed. *)
Theorem type_error_keeps_earlier_subscriptions (service : Service)
    (aws : Aws) (functionArn : ForwarderArn) (rs : Resources) :
  service_Resources service = Some rs ->
  let run := addCloudWatchForwarderSubscriptions service aws functionArn in
  outcome run = Thrown TypeError ->
  exists processed bad rest rs',
    rs = processed ++ bad :: rest
    /\ wellTyped processed = true
    /\ typeGuardHolds (snd bad) = false
    /\ service_Resources (service_after run) = Some rs'
    /\ rs' = applySubscriptions service aws functionArn processed rs
    /\ (forall name resource,
           In (name, resource) processed ->
           admissible service aws (name, resource) = true ->
           lookup (name ++ "Subscription")%string rs'
           = Some (subscription name functionArn))
    /\ forall logGroupName,
         In (CloudWatchLogs_describeSubscriptionFilters logGroupName)
            (requests_sent run) ->
         exists name resource,
           In (name, resource) processed
           /\ lambdaLogGroupName resource = Returned (Some logGroupName).
Proof.
  intros Hrs run Hout. unfold run in *.
  destruct (validationPasses aws functionArn) eqn:Hval.
  - destruct (run_prefix service aws functionArn rs Hrs Hval)
      as (processed & rest & E & Hty & Hafter & Hreq & Hcase).
    destruct Hcase as [[_ Hret]|[_ (bad & rest' & -> & Hbad)]];
      [congruence|].
    exists processed, bad, rest'.
    exists (applySubscriptions service aws functionArn processed rs).
    rewrite Hafter, Hreq.
    split; [exact E|]. split; [exact Hty|]. split; [exact Hbad|].
    split; [now apply (service_Resources_with _ rs)|].
    split; [reflexivity|]. split.
    + intros name resource Hin Hadm.
      now apply (lookup_apply_admissible _ _ _ name resource).
    + intros n Hn. apply in_app_or in Hn as [Hn|Hn].
      * unfold validationRequests in Hn.
        destruct (typeof_not_string functionArn); [contradiction|].
        destruct Hn as [Hn|[]]. discriminate.
      * now apply In_entryRequests_inv in Hn.
  - rewrite (run_validation_fails _ _ _ _ Hrs Hval) in Hout. discriminate.
Qed.

Lemma type_error_keeps_earlier_subscriptions_witness :
  let run :=
    addCloudWatchForwarderSubscriptions
      (Scenario.mkService
         (Scenario.template ++ [("Bad"%string, Scenario.computedLogGroup)]))
      (Scenario.mkAws (Some []) true None) Scenario.forwarder in
  outcome run = Thrown TypeError
  /\ exists rs',
       service_Resources (service_after run) = Some rs'
       /\ lookup "FuncLogGroupSubscription" rs'
          = Some (subscription "FuncLogGroup" Scenario.forwarder).
Proof.
  intros run. split; [reflexivity|].
  destruct (type_error_keeps_earlier_subscriptions
              (Scenario.mkService
                 (Scenario.template
                  ++ [("Bad"%string, Scenario.computedLogGroup)]))
              (Scenario.mkAws (Some []) true None) Scenario.forwarder
              (Scenario.template
               ++ [("Bad"%string, Scenario.computedLogGroup)]))
    as (processed & bad & rest & rs' & _ & _ & _ & Hrs' & E & _);
    [reflexivity | reflexivity |].
  exists rs'. split; [exact Hrs'|].
  unfold run. simpl in Hrs'. injection Hrs' as <-. reflexivity.
Defined.

(** X5.  The quota check does not depend on the order in which the account
    lists the filters of a log group. *)
Theorem canSubscribeLogGroup_order_irrelevant (aws1 aws2 : Aws)
    (logGroupName expected : string)
    (filters1 filters2 : list SubscriptionFilter) (st : State) :
  request_describeSubscriptionFilters aws1 logGroupName = Some filters1 ->
  request_describeSubscriptionFilters aws2 logGroupName = Some filters2 ->
  Permutation filters1 filters2 ->
  canSubscribeLogGroup aws1 logGroupName expected st
  = canSubscribeLogGroup aws2 logGroupName expected st.
Proof.
  intros H1 H2 Hperm. rewrite !canSubscribeLogGroup_run. f_equal. f_equal.
  unfold canSubscribe, liveFilters. rewrite H1, H2.
  rewrite (Permutation_length Hperm). f_equal.
  destruct (existsb (matchesPrefix expected) filters2) eqn:E2.
  - apply existsb_exists in E2 as (f & Hin & Hf).
    apply existsb_exists. exists f. split; [|exact Hf].
    now apply (Permutation_in f (Permutation_sym Hperm)).
  - destruct (existsb (matchesPrefix expected) filters1) eqn:E1;
      [|reflexivity].
    apply existsb_exists in E1 as (f & Hin & Hf).
    assert (Hex : existsb (matchesPrefix expected) filters2 = true).
    { apply existsb_exists. exists f. split; [|exact Hf].
      now apply (Permutation_in f Hperm). }
    congruence.
Qed.

Lemma canSubscribeLogGroup_order_irrelevant_witness :
  let a := Scenario.filter "my-service-dev-FuncLogGroupSubscription-XYZ" in
  let b := Scenario.filter "other" in
  let st := {| resources := []; errors := []; requests := [] |} in
  canSubscribeLogGroup (Scenario.mkAws (Some [a; b]) true None)
    "/aws/lambda/my-service-dev-func"
    "my-service-dev-FuncLogGroupSubscription-" st
  = canSubscribeLogGroup (Scenario.mkAws (Some [b; a]) true None)
      "/aws/lambda/my-service-dev-func"
      "my-service-dev-FuncLogGroupSubscription-" st.
Proof.
  intros a b st.
  apply (canSubscribeLogGroup_order_irrelevant _ _ _ _ [a; b] [b; a]);
    [reflexivity | reflexivity | apply perm_swap].
Defined.

(** X6.  In a call that returns, the [Ref] of every subscription it wrote
    names a resource of the template: the name of the log group is still
    there.  It still holds the log group itself unless that name is in turn
    [<other>Subscription] for an admissible entry [other], whose
    subscription then replaced it. *)
Theorem subscription_reference_resolves (service : Service) (aws : Aws)
    (functionArn : ForwarderArn) (rs : Resources) (warnings : list string)
    (name : string) (resource : JsValue) :
  service_Resources service = Some rs ->
  let run := addCloudWatchForwarderSubscriptions service aws functionArn in
  outcome run = Returned warnings ->
  In (name, resource) rs ->
  admissible service aws (name, resource) = true ->
  exists rs' properties,
    service_Resources (service_after run) = Some rs'
    /\ lookup (name ++ "Subscription")%string rs'
       = Some (subscription name functionArn)
    /\ get (subscription name functionArn) "Properties" = Returned properties
    /\ get properties "LogGroupName"
       = Returned (JsObject [("Ref"%string, JsString name)])
    /\ lookup name rs' <> None
    /\ (NoDup (keys rs) ->
        (forall other resource',
            In (other, resource') rs ->
            admissible service aws (other, resource') = true ->
            name <> (other ++ "Subscription")%string) ->
        lookup name rs' = Some resource)
    /\ forall other resource',
         In (other, resource') rs ->
         admissible service aws (other, resource') = true ->
         name = (other ++ "Subscription")%string ->
         lookup name rs' = Some (subscription other functionArn).
Proof.
  intros Hrs run Hret Hin Hadm. unfold run in *.
  destruct (run_Returned _ _ _ _ Hrs _ Hret) as [Hval Hty].
  rewrite (run_passes _ _ _ _ Hrs Hval Hty). simpl.
  do 2 eexists. split; [now apply (service_Resources_with _ rs)|].
  split; [now apply (lookup_apply_admissible _ _ _ name resource)|].
  split; [reflexivity|]. split; [reflexivity|].
  split; [|split].
  - apply lookup_apply_Some. now apply (In_lookup_Some _ resource).
  - intros Hnd Hfree. rewrite lookup_apply_other.
    + now apply In_lookup_NoDup.
    + exact Hfree.
  - intros other resource' Hin' Hadm' ->.
    now apply (lookup_apply_admissible _ _ _ other resource').
Qed.

Lemma subscription_reference_resolves_witness :
  let rs :=
    [("X"%string, Scenario.logGroup "/aws/lambda/x");
     ("XSubscription"%string, Scenario.logGroup "/aws/lambda/y")] in
  let run :=
    addCloudWatchForwarderSubscriptions (Scenario.mkService rs)
      (Scenario.mkAws (Some []) true None) Scenario.forwarder in
  exists rs',
    service_Resources (service_after run) = Some rs'
    /\ lookup "XSubscriptionSubscription" rs'
       = Some (subscription "XSubscription" Scenario.forwarder)
    /\ lookup "XSubscription" rs'
       = Some (subscription "X" Scenario.forwarder).
Proof.
  intros rs run.
  destruct (subscription_reference_resolves (Scenario.mkService rs)
              (Scenario.mkAws (Some []) true None) Scenario.forwarder rs []
              "XSubscription" (Scenario.logGroup "/aws/lambda/y"))
    as (rs' & properties & Hrs' & Hsub & _ & _ & _ & _ & Hover);
    [reflexivity | reflexivity | right; now left | reflexivity |].
  exists rs'. split; [exact Hrs'|]. split; [exact Hsub|].
  apply (Hover "X"%string (Scenario.logGroup "/aws/lambda/x"));
    [now left | reflexivity | reflexivity].
Defined.

(** X7.  A template in which the guard of the loop skips every resource
    (each is neither [null] nor [undefined] and is not tagged
    [AWS::Logs::LogGroup], or is a log group whose string name does not
    start with [/aws/lambda/]; the empty template too) is left as it is:
    when the validation step passes, the call returns at most the note
    about skipped validation and lists the filters of no log group. *)
Theorem no_lambda_log_group_no_change (service : Service) (aws : Aws)
    (functionArn : ForwarderArn) (rs : Resources) :
  service_Resources service = Some rs ->
  (forall name resource,
      In (name, resource) rs -> lambdaLogGroupName resource = Returned None) ->
  validationPasses aws functionArn = true ->
  let run := addCloudWatchForwarderSubscriptions service aws functionArn in
  outcome run
  = Returned (if typeof_not_string functionArn
              then [skipValidationWarning] else [])
  /\ service_after run = service
  /\ forall logGroupName,
       ~ In (CloudWatchLogs_describeSubscriptionFilters logGroupName)
            (requests_sent run).
Proof.
  intros Hrs Hnone Hval run. unfold run.
  assert (Hty : wellTyped rs = true).
  { apply forallb_forall. intros [n r] Hin. simpl.
    apply typeGuardHolds_scan. eauto. }
  rewrite (run_passes _ _ _ _ Hrs Hval Hty). simpl.
  assert (Hw : flat_map (entryWarnings service aws) rs = []).
  { destruct (flat_map (entryWarnings service aws) rs) as [|w l] eqn:E;
      [reflexivity|].
    assert (Hin : In w (flat_map (entryWarnings service aws) rs))
      by (rewrite E; now left).
    apply In_entryWarnings in Hin as (n & r & x & Hin & Hscan & _).
    rewrite (Hnone n r Hin) in Hscan. discriminate. }
  assert (Hfix : applySubscriptions service aws functionArn rs rs = rs).
  { apply apply_fixed. intros n r Hin Hadm. unfold admissible in Hadm.
    simpl in Hadm. rewrite (Hnone n r Hin) in Hadm. discriminate. }
  rewrite Hw, Hfix, app_nil_r. split; [reflexivity|].
  split; [now apply with_Resources_same|].
  intros n Hn. apply in_app_or in Hn as [Hn|Hn].
  - unfold validationRequests in Hn.
    destruct (typeof_not_string functionArn); [contradiction|].
    destruct Hn as [Hn|[]]. discriminate.
  - apply In_entryRequests_inv in Hn as (name & resource & Hin & Hscan).
    rewrite (Hnone name resource Hin) in Hscan. discriminate.
Qed.

Lemma no_lambda_log_group_no_change_witness :
  let rs :=
    [("Bucket"%string,
      JsObject [("Type"%string, JsString "AWS::S3::Bucket")]);
     ("ApiLogGroup"%string, Scenario.logGroup "/aws/api-gateway/my-api")] in
  let service := Scenario.mkService rs in
  let run :=
    addCloudWatchForwarderSubscriptions service
      (Scenario.mkAws None true None) Scenario.forwarder in
  outcome run = Returned []
  /\ service_after run = service
  /\ requests_sent run = [Lambda_getFunction Scenario.forwarder].
Proof.
  intros rs service run.
  destruct (no_lambda_log_group_no_change service
              (Scenario.mkAws None true None) Scenario.forwarder rs)
    as (H1 & H2 & _).
  - reflexivity.
  - intros n r [E|[E|[]]]; injection E as <- <-; reflexivity.
  - reflexivity.
  - split; [exact H1|]. split; [exact H2 | reflexivity].
Defined.

(** * The handler wrappers *)

(** ** Splitting and joining *)

Lemma split_not_nil (c : ascii) (s : string) : Wrapper.split c s <> [].
Proof.
  induction s as [|x s IH]; simpl; [discriminate|].
  destruct (Ascii.eqb x c); [discriminate|].
  destruct (Wrapper.split c s); discriminate.
Qed.

Lemma join_cons (sep part : string) (parts : list string) :
  parts <> [] ->
  Wrapper.join sep (part :: parts)
  = (part ++ sep ++ Wrapper.join sep parts)%string.
Proof. destruct parts; [contradiction | reflexivity]. Qed.

(** Joining the pieces with the separator gives the string back. *)
Lemma join_split (c : ascii) (s : string) :
  Wrapper.join (String c EmptyString) (Wrapper.split c s) = s.
Proof.
  induction s as [|x s IH]; [reflexivity|].
  simpl Wrapper.split. destruct (Ascii.eqb_spec x c) as [->|Hne].
  - rewrite join_cons by apply split_not_nil. simpl. now rewrite IH.
  - pose proof (split_not_nil c s) as Hnil.
    destruct (Wrapper.split c s) as [|part parts]; [contradiction|].
    destruct parts as [|part' parts].
    + simpl in *. now rewrite IH.
    + rewrite join_cons by discriminate.
      rewrite join_cons in IH by discriminate.
      subst s. reflexivity.
Qed.

(** No piece holds the separator. *)
Lemma split_parts_free (c : ascii) (s part : string) :
  In part (Wrapper.split c s) -> Wrapper.includes c part = false.
Proof.
  revert part; induction s as [|x s IH]; intros part; simpl.
  - intros [<-|[]]. reflexivity.
  - destruct (Ascii.eqb x c) eqn:E.
    + intros [<-|Hin]; [reflexivity | now apply IH].
    + pose proof (split_not_nil c s) as Hnil.
      destruct (Wrapper.split c s) as [|p ps]; [contradiction|].
      intros [<-|Hin].
      * simpl. rewrite E. apply IH. now left.
      * apply IH. now right.
Qed.

(** A string without the separator is its own single piece. *)
Lemma split_free (c : ascii) (s : string) :
  Wrapper.includes c s = false -> Wrapper.split c s = [s].
Proof.
  induction s as [|x s IH]; simpl; [reflexivity|].
  intros H. apply orb_false_iff in H as [-> H]. now rewrite (IH H).
Qed.

(** There are at least two pieces exactly when the separator occurs. *)
Lemma split_length (c : ascii) (s : string) :
  Nat.ltb (length (Wrapper.split c s)) 2 = negb (Wrapper.includes c s).
Proof.
  induction s as [|x s IH]; [reflexivity|].
  simpl. destruct (Ascii.eqb x c); simpl.
  - pose proof (split_not_nil c s) as Hnil.
    now destruct (Wrapper.split c s).
  - pose proof (split_not_nil c s) as Hnil.
    destruct (Wrapper.split c s) as [|p ps]; [contradiction|].
    exact IH.
Qed.

(** Splitting distributes over a separator in the middle. *)
Lemma split_append (c : ascii) (s t : string) :
  Wrapper.split c (s ++ String c t)
  = Wrapper.split c s ++ Wrapper.split c t.
Proof.
  induction s as [|x s IH]; simpl.
  - now rewrite Ascii.eqb_refl.
  - destruct (Ascii.eqb x c); [now rewrite IH|].
    rewrite IH. pose proof (split_not_nil c s) as Hnil.
    now destruct (Wrapper.split c s).
Qed.

(** The pieces but the last, the separator and the last piece make up the
    joined string. *)
Lemma join_removelast (sep : string) (parts : list string) :
  2 <= length parts ->
  (Wrapper.join sep (removelast parts) ++ sep ++ last parts EmptyString)%string
  = Wrapper.join sep parts.
Proof.
  induction parts as [|p parts IH]; simpl length; [lia|].
  intros Hlen. destruct parts as [|q parts]; [simpl in Hlen; lia|].
  destruct parts as [|r parts].
  - reflexivity.
  - change (removelast (p :: q :: r :: parts))
      with (p :: removelast (q :: r :: parts)).
    change (last (p :: q :: r :: parts) EmptyString)
      with (last (q :: r :: parts) EmptyString).
    rewrite join_cons.
    + rewrite (join_cons sep p (q :: r :: parts)) by discriminate.
      rewrite <- IH by (simpl; lia).
      now rewrite !append_assoc.
    + simpl. now destruct parts.
Qed.

(** With at least two pieces, the string is the pieces but the last, joined,
    a separator, and the last piece, which holds no separator. *)
Lemma split_last_piece (c : ascii) (s : string) :
  Nat.ltb (length (Wrapper.split c s)) 2 = false ->
  s = (Wrapper.join (String c EmptyString) (removelast (Wrapper.split c s))
       ++ String c EmptyString ++ last (Wrapper.split c s) EmptyString)%string
  /\ Wrapper.includes c (last (Wrapper.split c s) EmptyString) = false.
Proof.
  intros Hlen. apply Nat.ltb_ge in Hlen. split.
  - rewrite (join_removelast _ _ Hlen). symmetry. apply join_split.
  - apply (split_parts_free c s).
    pose proof (split_not_nil c s) as Hnil.
    destruct (exists_last Hnil) as (l & a & E). rewrite E.
    rewrite last_last. apply in_or_app. right. now left.
Qed.

(** ** [getHandlerPath] and [getWrapperText] *)

Section WrapperFacts.
Variable RuntimeType : Type.
Variables NODE PYTHON : RuntimeType.
Variable RuntimeType_eqb : RuntimeType -> RuntimeType -> bool.
Variables nodeTemplate pythonTemplate : string -> string -> string.

Local Abbreviation handlerfile h :=
  (FunctionDefinition.handler (Wrapper.handler RuntimeType h)).

(** X8.  [getHandlerPath] returns nothing exactly when the handler string
    holds no dot (the empty string too). *)
Theorem getHandlerPath_undefined_iff
    (handlerInfo : Wrapper.HandlerInfo RuntimeType) :
  Wrapper.getHandlerPath RuntimeType handlerInfo = None
  <-> Wrapper.includes "." (handlerfile handlerInfo) = false.
Proof.
  unfold Wrapper.getHandlerPath. rewrite split_length.
  destruct (Wrapper.includes "." (handlerfile handlerInfo)); simpl.
  - split; discriminate.
  - split; reflexivity.
Qed.

(** X9.  [getHandlerPath] cuts the handler string at its last dot: it
    returns [method] and [filename] exactly when the handler string is
    [filename], a dot and [method], and [method] holds no dot.  So putting
    the two back together with a dot gives the handler string back. *)
Theorem getHandlerPath_cuts_at_last_dot
    (handlerInfo : Wrapper.HandlerInfo RuntimeType)
    (result : Wrapper.HandlerPath) :
  Wrapper.getHandlerPath RuntimeType handlerInfo = Some result
  <-> handlerfile handlerInfo
      = (Wrapper.filename result ++ "." ++ Wrapper.method result)%string
      /\ Wrapper.includes "." (Wrapper.method result) = false.
Proof.
  unfold Wrapper.getHandlerPath.
  set (s := handlerfile handlerInfo).
  split.
  - destruct (Nat.ltb (length (Wrapper.split "." s)) 2) eqn:Hlen;
      [discriminate|].
    apply Nat.ltb_ge in Hlen. intros [= <-].
    cbn [Wrapper.filename Wrapper.method]. split.
    + rewrite (join_removelast "." _ Hlen). symmetry. apply join_split.
    + apply (split_parts_free "." s).
      pose proof (split_not_nil "." s) as Hnil.
      destruct (exists_last Hnil) as (l & a & E). rewrite E.
      rewrite last_last. apply in_or_app. right. now left.
  - destruct result as [m f]. cbn [Wrapper.filename Wrapper.method].
    intros [E Hfree].
    assert (Hsplit : Wrapper.split "." s = Wrapper.split "." f ++ [m]).
    { rewrite E. change (f ++ "." ++ m)%string with (f ++ String "." m)%string.
      now rewrite split_append, (split_free _ _ Hfree). }
    rewrite Hsplit, length_app. simpl length.
    pose proof (split_not_nil "." f) as Hnil.
    destruct (Nat.ltb_spec (length (Wrapper.split "." f) + 1) 2) as [Hlt|_].
    + destruct (Wrapper.split "." f); [contradiction | simpl in Hlt; lia].
    + now rewrite last_last, removelast_last, join_split.
Qed.

Hypothesis RuntimeType_eqb_spec :
  forall a b, RuntimeType_eqb a b = true <-> a = b.

(** X10.  [getWrapperText] returns nothing exactly when the handler string
    holds no dot or the runtime is neither [NODE] nor [PYTHON].  When it
    returns a wrapper, the method is the text after the last dot of the
    handler string, and the text is the template of the runtime applied to
    the text before that dot and the method. *)
Theorem getWrapperText_cases
    (handlerInfo : Wrapper.HandlerInfo RuntimeType) :
  let wrapperText :=
    Wrapper.getWrapperText RuntimeType NODE PYTHON RuntimeType_eqb
      nodeTemplate pythonTemplate handlerInfo in
  let runtime := Wrapper.type RuntimeType handlerInfo in
  (wrapperText = None
   <-> Wrapper.includes "." (handlerfile handlerInfo) = false
       \/ (runtime <> NODE /\ runtime <> PYTHON))
  /\ forall wrapper,
       wrapperText = Some wrapper ->
       Wrapper.includes "." (Wrapper.text_method wrapper) = false
       /\ exists filename,
            handlerfile handlerInfo
            = (filename ++ "." ++ Wrapper.text_method wrapper)%string
            /\ ((runtime = NODE
                 /\ Wrapper.text wrapper
                    = nodeTemplate filename (Wrapper.text_method wrapper))
                \/ (runtime <> NODE /\ runtime = PYTHON
                    /\ Wrapper.text wrapper
                       = pythonTemplate filename
                           (Wrapper.text_method wrapper))).
Proof.
  intros wrapperText runtime.
  unfold wrapperText, Wrapper.getWrapperText, Wrapper.getHandlerPath.
  fold runtime. set (s := handlerfile handlerInfo).
  pose proof (split_length "." s) as Hlen.
  destruct (Nat.ltb (length (Wrapper.split "." s)) 2) eqn:Hparts.
  - symmetry in Hlen. apply negb_true_iff in Hlen.
    split; [|discriminate]. split; [now left | reflexivity].
  - symmetry in Hlen. apply negb_false_iff in Hlen.
    destruct (split_last_piece "." s Hparts) as [E Hfree].
    cbn [Wrapper.filename Wrapper.method].
    destruct (RuntimeType_eqb runtime NODE) eqn:Hn.
    + apply RuntimeType_eqb_spec in Hn. split.
      * split; [discriminate | intros [H|[H _]]; congruence].
      * intros w [= <-]. cbn [Wrapper.text Wrapper.text_method].
        split; [exact Hfree|]. eexists. split; [exact E | now left].
    + assert (Hn' : runtime <> NODE).
      { intros H. apply RuntimeType_eqb_spec in H. congruence. }
      destruct (RuntimeType_eqb runtime PYTHON) eqn:Hp.
      * apply RuntimeType_eqb_spec in Hp. split.
        -- split; [discriminate | intros [H|[_ H]]; congruence].
        -- intros w [= <-]. cbn [Wrapper.text Wrapper.text_method].
           split; [exact Hfree|]. eexists. split; [exact E | now right].
      * assert (Hp' : runtime <> PYTHON).
        { intros H. apply RuntimeType_eqb_spec in H. congruence. }
        split; [|discriminate]. split; [now right | reflexivity].
Qed.
End WrapperFacts.

Lemma getHandlerPath_undefined_iff_witness :
  Wrapper.getHandlerPath nat
    {| Wrapper.name := "hello"; Wrapper.type := 0;
       Wrapper.handler := {| FunctionDefinition.handler := "handler" |} |}
  = None.
Proof. apply getHandlerPath_undefined_iff. reflexivity. Defined.

Lemma getHandlerPath_cuts_at_last_dot_witness :
  Wrapper.getHandlerPath nat
    {| Wrapper.name := "hello"; Wrapper.type := 0;
       Wrapper.handler :=
         {| FunctionDefinition.handler := "src/app.v2.hello" |} |}
  = Some {| Wrapper.method := "hello"; Wrapper.filename := "src/app.v2" |}.
Proof. apply getHandlerPath_cuts_at_last_dot. split; reflexivity. Defined.

Lemma getWrapperText_cases_witness :
  Wrapper.getWrapperText nat 0 1 Nat.eqb
    (fun filename method => filename) (fun filename method => method)
    {| Wrapper.name := "hello"; Wrapper.type := 2;
       Wrapper.handler :=
         {| FunctionDefinition.handler := "src/app.hello" |} |}
  = None.
Proof.
  apply (getWrapperText_cases nat 0 1 Nat.eqb
           (fun filename method => filename) (fun filename method => method)
           Nat.eqb_eq).
  right. simpl. split; discriminate.
Defined.

(** * The warnings of a call *)

(** X12.  The warnings of a call that returns are, in this order: the note
    about skipped validation when the target is not a string, then the
    quota warning of each function-managed log group that failed the quota
    check, in template order.  So there is one warning for each such entry
    and none for any other resource. *)
Theorem warnings_in_template_order (service : Service) (aws : Aws)
    (functionArn : ForwarderArn) (rs : Resources) (warnings : list string) :
  service_Resources service = Some rs ->
  outcome (addCloudWatchForwarderSubscriptions service aws functionArn)
  = Returned warnings ->
  warnings
  = (if typeof_not_string functionArn then [skipValidationWarning] else [])
    ++ flat_map
         (fun entry =>
            match lambdaLogGroupName (snd entry) with
            | Returned (Some logGroupName) =>
                if admissible service aws entry then []
                else [quotaWarning logGroupName]
            | _ => []
            end)
         rs.
Proof.
  intros Hrs Hret.
  destruct (run_Returned _ _ _ _ Hrs _ Hret) as [Hval Hty].
  rewrite (run_passes _ _ _ _ Hrs Hval Hty) in Hret. simpl in Hret.
  injection Hret as <-. f_equal.
  apply flat_map_ext. intros [n r]. unfold entryWarnings, admissible. simpl.
  now destruct (lambdaLogGroupName r) as [[l|]|e].
Qed.

Lemma warnings_in_template_order_witness :
  let service := Scenario.mkService Scenario.template in
  let aws :=
    Scenario.mkAws (Some [Scenario.filter "a"; Scenario.filter "b"])
      false None in
  [skipValidationWarning; quotaWarning "/aws/lambda/my-service-dev-func"]
  = [skipValidationWarning]
    ++ flat_map
         (fun entry =>
            match lambdaLogGroupName (snd entry) with
            | Returned (Some logGroupName) =>
                if admissible service aws entry then []
                else [quotaWarning logGroupName]
            | _ => []
            end)
         Scenario.template.
Proof.
  intros service aws.
  apply (warnings_in_template_order service aws
           (ArnObject Scenario.forwarderExpression) Scenario.template);
    reflexivity.
Defined.
